(** * Paprika to Nextcloud Cookbook converter: a shallow embedding

    The development follows [convert_paprika_to_nextcloud.py]:

    - [PyStr]: the part of Python's [str] and [re] that the script calls,
      over the code points U+0000 to U+00FF (one [ascii] per code point);
    - [safe_dirname], [paprika_to_schemaorg]: the two pure functions;
    - [OS]: a file system and a console, with an error-and-state monad;
    - [process_recipe_data], [process_paprikarecipe_file],
      [process_bulk_export], [main]: the effectful functions.

    Theorems come after the definitions. *)

From Stdlib Require Import ZArith NArith Ascii String List Strings.Byte.
From Stdlib Require Import Floats.PrimFloat.
From stdpp Require Import gmap strings list fin_maps.


(** ** Python strings over Latin-1 *)

Module PyStr.

(** Code point of a character. *)
Definition cp (c : ascii) : N := N_of_ascii c.

Definition in_range (lo hi n : N) : bool := ((lo <=? n) && (n <=? hi))%N.

(** [str.isspace] on one character, which is also what [\s] matches in a
    [str] pattern: TAB..CR, FS..US, SPACE, NEL and NBSP. *)
Definition isspace (c : ascii) : bool :=
  let n := cp c in
  in_range 9 13 n || in_range 28 32 n || (n =? 133)%N || (n =? 160)%N.

(** Characters of category Lu. *)
Definition isupper (c : ascii) : bool :=
  let n := cp c in
  in_range 65 90 n || in_range 192 214 n || in_range 216 222 n.

(** [str.isalnum] on one character: letters, decimal digits, and the
    digits and numerics of the range (superscripts and vulgar fractions). *)
Definition isalnum (c : ascii) : bool :=
  let n := cp c in
  in_range 48 57 n || in_range 65 90 n || in_range 97 122 n
  || (n =? 170)%N || in_range 178 179 n || (n =? 181)%N
  || in_range 185 186 n || in_range 188 190 n
  || in_range 192 214 n || in_range 216 246 n || in_range 248 255 n.

(** What [\w] matches in a [str] pattern. *)
Definition isword (c : ascii) : bool := isalnum c || (cp c =? 95)%N.

Definition lower_char (c : ascii) : ascii :=
  if isupper c then ascii_of_N (cp c + 32) else c.

Fixpoint string_forall (p : ascii → bool) (s : string) : bool :=
  match s with
  | "" => true
  | String c s' => p c && string_forall p s'
  end.

Fixpoint string_filter (p : ascii → bool) (s : string) : string :=
  match s with
  | "" => ""
  | String c s' =>
      if p c then String c (string_filter p s') else string_filter p s'
  end.

(** [s.lower()] *)
Fixpoint lower (s : string) : string :=
  match s with
  | "" => ""
  | String c s' => String (lower_char c) (lower s')
  end.

Fixpoint lstrip (s : string) : string :=
  match s with
  | "" => ""
  | String c s' => if isspace c then lstrip s' else s
  end.

Fixpoint rstrip (s : string) : string :=
  match s with
  | "" => ""
  | String c s' =>
      match rstrip s' with
      | "" => if isspace c then "" else String c ""
      | r => String c r
      end
  end.

(** [s.strip()]: the left end is found first, then the right end. *)
Definition strip (s : string) : string := rstrip (lstrip s).

(** [re.sub(p, repl, s)] for a pattern [p] that is one character class
    [cls]: every matching character is replaced. *)
Fixpoint re_sub_class (cls : ascii → bool) (repl s : string) : string :=
  match s with
  | "" => ""
  | String c s' =>
      if cls c then repl +:+ re_sub_class cls repl s'
      else String c (re_sub_class cls repl s')
  end.

(** [re.sub(p, repl, s)] for a pattern [p] that is a character class
    followed by [+]. The scan goes left to right; [in_match] says that the
    previous character belonged to a match, which the greedy [+] extends. *)
Fixpoint re_sub_class_plus_from
    (cls : ascii → bool) (repl : string) (in_match : bool) (s : string)
    : string :=
  match s with
  | "" => ""
  | String c s' =>
      if cls c then
        if in_match then re_sub_class_plus_from cls repl true s'
        else repl +:+ re_sub_class_plus_from cls repl true s'
      else String c (re_sub_class_plus_from cls repl false s')
  end.

Definition re_sub_class_plus (cls : ascii → bool) (repl s : string) : string :=
  re_sub_class_plus_from cls repl false s.

(** [s.split(sep)] for a separator of one character. *)
Fixpoint split_char (sep : ascii) (s : string) : list string :=
  match s with
  | "" => [""]
  | String c s' =>
      if Ascii.eqb c sep then "" :: split_char sep s'
      else match split_char sep s' with
           | [] => [String c ""]
           | w :: ws => String c w :: ws
           end
  end.

(** [s.endswith(suffix)]: some tail of [s] is [suffix]. *)
Fixpoint endswith (s suffix : string) : bool :=
  String.eqb s suffix
  || match s with
     | "" => false
     | String _ s' => endswith s' suffix
     end.

(** Truth value of a string. *)
Definition nonempty (s : string) : bool :=
  match s with "" => false | _ => true end.

End PyStr.

Import PyStr.

(** ** The name sanitizer *)

(** The character class [[^\w\-]]. *)
Definition not_word_or_hyphen (c : ascii) : bool :=
  negb (isword c || Ascii.eqb c "-").

Definition safe_dirname (name : string) : string :=
  let s := lower (strip name) in
  let s := re_sub_class_plus isspace "_" s in
  let s := re_sub_class not_word_or_hyphen "" s in
  if nonempty s then s else "unnamed_recipe".

(** ** Python values *)

(** The values [json.load] returns: [None], booleans, integers, floats,
    strings, lists, and dictionaries with string keys. *)
#[warnings="-register-all"]
Inductive pyval :=
| PNone
| PBool (b : bool)
| PInt (z : Z)
| PFloat (f : float)
| PStr (s : string)
| PList (l : list pyval)
| PDict (d : gmap string pyval).

Inductive exn :=
| AttributeError
| TypeError
| ValueError
| BinasciiError
| FileExistsError
| FileNotFoundError
| IsADirectoryError
| NotADirectoryError
| BadGzipFile
| BadZipFile
| JSONDecodeError
| UnicodeDecodeError
| KeyError
| SystemExit (code : Z).

(** [except Exception] does not catch [SystemExit]. *)
Definition is_Exception (e : exn) : bool :=
  match e with SystemExit _ => false | _ => true end.

Inductive res (A : Type) :=
| Ok (a : A)
| Raise (e : exn).
Arguments Ok {A} a.
Arguments Raise {A} e.

(** Truth value of an object, as [if v:] tests it. *)
Definition truthy (v : pyval) : bool :=
  match v with
  | PNone => false
  | PBool b => b
  | PInt z => negb (z =? 0)%Z
  | PFloat f => negb (PrimFloat.eqb f 0%float)
  | PStr s => nonempty s
  | PList l => match l with [] => false | _ => true end
  | PDict d => match map_to_list d with [] => false | _ => true end
  end.

(** [d.get(key, dflt)] on a dictionary. *)
Definition dict_get (d : gmap string pyval) (key : string) (dflt : pyval) : pyval :=
  default dflt (d !! key).

(** [v.get(key, dflt)] on any object: only dictionaries have [get]. *)
Definition get_dyn (v : pyval) (key : string) (dflt : pyval) : res pyval :=
  match v with
  | PDict d => Ok (dict_get d key dflt)
  | _ => Raise AttributeError
  end.

(** A dictionary display [{k1: v1, ...}]: items are stored left to right. *)
Definition dict_of_items (items : list (string * pyval)) : gmap string pyval :=
  fold_left (λ d kv, <[kv.1 := kv.2]> d) items ∅.

(** ** The record mapper *)

Definition newline : ascii := ascii_of_N 10.

(** [[line.strip() for line in lines if line.strip()]] *)
Fixpoint stripped_lines (lines : list string) : list string :=
  match lines with
  | [] => []
  | line :: rest =>
      if nonempty (strip line) then strip line :: stripped_lines rest
      else stripped_lines rest
  end.

(** The value of [directions] or [ingredients] after its [if] statement. *)
Definition lines_field (d : gmap string pyval) (key : string) : list string :=
  match d !! key with
  | Some (PStr s) => stripped_lines (split_char newline s)
  | _ => []
  end.

Definition aggregate_rating (d : gmap string pyval) : gmap string pyval :=
  dict_of_items
    [ ("@type", PStr "AggregateRating");
      ("ratingValue", dict_get d "rating" (PInt 0));
      ("ratingCount", PInt 1) ].

(** The body of [paprika_to_schemaorg] once [paprika_json] is a dictionary. *)
Definition schema_of_dict (d : gmap string pyval) : gmap string pyval :=
  let name := dict_get d "name" (PStr "Untitled") in
  let image := dict_get d "image_url" (PStr "") in
  let directions := lines_field d "directions" in
  let ingredients := lines_field d "ingredients" in
  dict_of_items
    [ ("@context", PStr "https://schema.org/");
      ("@type", PStr "Recipe");
      ("name", name);
      ("image", image);
      ("recipeIngredient", PList (PStr <$> ingredients));
      ("recipeInstructions", PList (PStr <$> directions));
      ("description", dict_get d "description" (PStr ""));
      ("cookTime", dict_get d "cook_time" (PStr ""));
      ("prepTime", dict_get d "prep_time" (PStr ""));
      ("totalTime", dict_get d "total_time" (PStr ""));
      ("recipeYield", dict_get d "servings" (PStr ""));
      ("aggregateRating", PDict (aggregate_rating d));
      ("author", dict_get d "source" (PStr ""));
      ("url", dict_get d "source_url" (PStr ""));
      ("notes", dict_get d "notes" (PStr ""));
      ("difficulty", dict_get d "difficulty" (PStr ""));
      ("nutritionalInfo", dict_get d "nutritional_info" (PStr ""));
      ("category", dict_get d "categories" (PList [])) ].

(** [paprika_json.get] raises [AttributeError] on anything but a dictionary. *)
Definition paprika_to_schemaorg (paprika_json : pyval) : res (gmap string pyval) :=
  match paprika_json with
  | PDict d => Ok (schema_of_dict d)
  | _ => Raise AttributeError
  end.

(** [safe_dirname(v)] on any object: only strings have [strip]. *)
Definition safe_dirname_dyn (v : pyval) : res string :=
  match v with
  | PStr s => Ok (safe_dirname s)
  | _ => Raise AttributeError
  end.

(** ** base64 *)

Module Base64.

Definition to_byte (n : N) : byte := byte_of_ascii (ascii_of_N n).

(** [table_a2b_base64]: the value of a character of the alphabet. *)
Definition value (c : ascii) : option N :=
  let n := cp c in
  if in_range 65 90 n then Some (n - 65)%N
  else if in_range 97 122 n then Some (n - 71)%N
  else if in_range 48 57 n then Some (n + 4)%N
  else if (n =? 43)%N then Some 62%N
  else if (n =? 47)%N then Some 63%N
  else None.

(** The loop of [binascii.a2b_base64] without [strict_mode]: characters
    outside the alphabet are skipped, a pad sequence that completes a
    quad ends the input, and an incomplete quad at the end is an error.
    [out] is the output so far. *)
Fixpoint a2b_loop (s : string) (quad_pos : nat) (leftchar : N) (pads : nat)
    (out : list byte) : res (list byte) :=
  match s with
  | "" => if (quad_pos =? 0)%nat then Ok out else Raise BinasciiError
  | String c s' =>
      if Ascii.eqb c "=" then
        if (2 <=? quad_pos)%nat then
          if (4 <=? quad_pos + S pads)%nat then Ok out
          else a2b_loop s' quad_pos leftchar (S pads) out
        else a2b_loop s' quad_pos leftchar pads out
      else
        match value c with
        | None => a2b_loop s' quad_pos leftchar pads out
        | Some v =>
            match quad_pos with
            | 0%nat => a2b_loop s' 1%nat v 0%nat out
            | 1%nat =>
                a2b_loop s' 2%nat (N.land v 15) 0%nat
                  (out ++ [to_byte (N.lor (N.shiftl leftchar 2) (N.shiftr v 4))])
            | 2%nat =>
                a2b_loop s' 3%nat (N.land v 3) 0%nat
                  (out ++ [to_byte (N.lor (N.shiftl leftchar 4) (N.shiftr v 2))])
            | _ =>
                a2b_loop s' 0%nat 0%N 0%nat
                  (out ++ [to_byte (N.lor (N.shiftl leftchar 6) v)])
            end
        end
  end.

Definition a2b_base64 (s : string) : res (list byte) :=
  a2b_loop s 0%nat 0%N 0%nat [].

Definition is_ascii (c : ascii) : bool := (cp c <? 128)%N.

(** [base64.b64decode(v)] with the default [validate=False]: a string must
    be ASCII ([ValueError] otherwise); an object that is neither a string
    nor bytes-like is a [TypeError]. *)
Definition b64decode (v : pyval) : res (list byte) :=
  match v with
  | PStr s => if string_forall is_ascii s then a2b_base64 s else Raise ValueError
  | _ => Raise TypeError
  end.

End Base64.

(** ** Files, console, and the monad of effects *)

Module OS.

(** A path as the system resolves it: the names from the root down. The
    working directory is the root, and [.] and [..] are ordinary names. *)
Abbreviation path := (list string).

(** File contents are kept symbolically: [JsonText v] is the text that
    [json.dump] writes for [v], [Gz d] the gzip stream of [d], [Zip ms] a
    zip archive with the members [ms] in directory order. Reading
    succeeds exactly on contents of the expected shape. *)
#[warnings="-register-all"]
Inductive fdata :=
| Raw (b : list byte)
| JsonText (v : pyval)
| Gz (d : fdata)
| Zip (members : list (string * fdata)).

Inductive node :=
| Dir
| File (d : fdata).

(** The lines the script prints; [e] is the exception an f-string shows. *)
Inductive msg :=
| MsgPhotoError (recipe_name : pyval) (e : exn)
| MsgConverted (label : pyval) (out_json_path : string)
| MsgWriteError (recipe_name : pyval) (e : exn)
| MsgFileError (file_path : string) (e : exn)
| MsgMemberError (member zip_path : string) (e : exn)
| MsgBulkError (zip_path : string) (e : exn)
| MsgUsage
| MsgUnrecognized (input_path : string)
| MsgNeither (input_path : string)
| MsgDone (output_dir : string).

Definition is_error (m : msg) : bool :=
  match m with
  | MsgConverted _ _ | MsgUsage | MsgDone _ => false
  | _ => true
  end.

Record world := World { fs : gmap path node; stdout : list msg }.

Definition M (A : Type) : Type := world → res A * world.

Definition ret {A} (a : A) : M A := λ w, (Ok a, w).

Definition bind {A B} (m : M A) (k : A → M B) : M B :=
  λ w, match m w with
       | (Ok a, w') => k a w'
       | (Raise e, w') => (Raise e, w')
       end.

Definition raise {A} (e : exn) : M A := λ w, (Raise e, w).

Definition lift {A} (r : res A) : M A := λ w, (r, w).

(** [try: body  except Exception as e: handler e] *)
Definition try_except {A} (body : M A) (handler : exn → M A) : M A :=
  λ w, match body w with
       | (Raise e, w') =>
           if is_Exception e then handler e w' else (Raise e, w')
       | r => r
       end.

(** [for x in l: body x] *)
Fixpoint for_each {A} (l : list A) (body : A → M unit) : M unit :=
  match l with
  | [] => ret tt
  | x :: l' => bind (body x) (λ _, for_each l' body)
  end.

Definition print (m : msg) : M unit :=
  λ w, (Ok tt, World (fs w) (stdout w ++ [m])).

Definition slash : ascii := "/"%char.

(** A name without a separator in it. *)
Definition slash_free (s : string) : bool :=
  string_forall (λ c, negb (Ascii.eqb c slash)) s.

(** [os.path.join(a, b)] *)
Definition path_join (a b : string) : string :=
  match b with
  | String c _ =>
      if Ascii.eqb c slash then b
      else if negb (nonempty a) || endswith a "/" then a +:+ b
      else a +:+ "/" +:+ b
  | "" =>
      if negb (nonempty a) || endswith a "/" then a else a +:+ "/"
  end.

(** [os.path.basename(p)] *)
Definition basename (p : string) : string :=
  List.last (split_char slash p) "".

Definition parse_path (p : string) : path :=
  List.filter nonempty (split_char slash p).

(** What is at a resolved path; the root is a directory. *)
Definition node_at (f : gmap path node) (q : path) : option node :=
  match q with
  | [] => Some Dir
  | _ => f !! q
  end.

(** What a path string denotes; the empty string denotes nothing. *)
Definition stat (f : gmap path node) (p : string) : option node :=
  if nonempty p then node_at f (parse_path p) else None.

Definition isdir (p : string) : M bool :=
  λ w, (Ok (match stat (fs w) p with Some Dir => true | _ => false end), w).

Definition isfile (p : string) : M bool :=
  λ w, (Ok (match stat (fs w) p with Some (File _) => true | _ => false end), w).

(** The directories [os.makedirs] creates on the way down from [done] to
    [done ++ todo]; a file on the way is an error and leaves the file
    system as it was. *)
Fixpoint makedirs_from (f : gmap path node) (done todo : path)
    : res (gmap path node) :=
  match todo with
  | [] => Ok f
  | n :: todo' =>
      let q := done ++ [n] in
      match f !! q with
      | Some Dir => makedirs_from f q todo'
      | Some (File _) =>
          Raise (match todo' with [] => FileExistsError | _ => NotADirectoryError end)
      | None => makedirs_from (<[q := Dir]> f) q todo'
      end
  end.

(** [os.makedirs(p, exist_ok=True)] *)
Definition makedirs (p : string) : M unit :=
  λ w, if nonempty p then
         match makedirs_from (fs w) [] (parse_path p) with
         | Ok f' => (Ok tt, World f' (stdout w))
         | Raise e => (Raise e, w)
         end
       else (Raise FileNotFoundError, w).

Definition parent (q : path) : path := removelast q.

(** [with open(p, "w" or "wb") as f: f.write(d)]: the file is created or
    replaced; the target must not be a directory and must lie in one. *)
Definition write_file (p : string) (d : fdata) : M unit :=
  λ w, if nonempty p then
         let q := parse_path p in
         match node_at (fs w) q with
         | Some Dir => (Raise IsADirectoryError, w)
         | _ =>
             match node_at (fs w) (parent q) with
             | Some Dir => (Ok tt, World (<[q := File d]> (fs w)) (stdout w))
             | Some (File _) => (Raise NotADirectoryError, w)
             | None => (Raise FileNotFoundError, w)
             end
         end
       else (Raise FileNotFoundError, w).

(** The contents of the file at [p], as [open] for reading gives them. *)
Definition read_file (p : string) : M fdata :=
  λ w, match stat (fs w) p with
       | Some (File d) => (Ok d, w)
       | Some Dir => (Raise IsADirectoryError, w)
       | None => (Raise FileNotFoundError, w)
       end.

(** [gzip.decompress(d)] *)
Definition gzip_decompress (d : fdata) : res fdata :=
  match d with
  | Gz d' => Ok d'
  | _ => Raise BadGzipFile
  end.

(** [json.loads(d.decode("utf-8"))] *)
Definition json_loads (d : fdata) : res pyval :=
  match d with
  | JsonText v => Ok v
  | Raw _ => Raise JSONDecodeError
  | _ => Raise UnicodeDecodeError
  end.

(** [zipfile.ZipFile(p, "r")]: the members of the archive. *)
Definition ZipFile (p : string) : M (list (string * fdata)) :=
  bind (read_file p) (λ d,
    match d with
    | Zip ms => ret ms
    | _ => raise BadZipFile
    end).

(** [zf.namelist()] *)
Definition namelist (zf : list (string * fdata)) : list string := zf.*1.

(** [zf.open(member).read()]: of several members with one name, the last
    in the directory is the one a name refers to. *)
Fixpoint zip_read (zf : list (string * fdata)) (member : string) : res fdata :=
  match zf with
  | [] => Raise KeyError
  | (n, d) :: zf' =>
      match zip_read zf' member with
      | Ok d' => Ok d'
      | Raise e => if String.eqb n member then Ok d else Raise e
      end
  end.

(** The names in a directory, in the order of the map's keys. *)
Definition child_name (dir : path) (q : path) : option string :=
  match q with
  | [] => None
  | _ => if bool_decide (parent q = dir) then Some (List.last q "") else None
  end.

Definition listdir (p : string) : M (list string) :=
  λ w, (Ok (omap (λ kv, child_name (parse_path p) kv.1) (map_to_list (fs w))), w).

(** The exit status of the interpreter when the script ends with [r]. *)
Definition exit_status {A} (r : res A) : Z :=
  match r with
  | Ok _ => 0
  | Raise (SystemExit code) => code
  | Raise _ => 1
  end.

End OS.

Import OS.

Declare Scope py_scope.
Delimit Scope py_scope with py.
Notation "x <- m ;; k" := (bind m (λ x, k))
  (at level 20, m at level 99, k at level 200, only parsing) : py_scope.
Notation "m ;;; k" := (bind m (λ _, k))
  (at level 100, k at level 200, only parsing) : py_scope.
Local Open Scope py_scope.

(** ** The record materializer *)

Definition process_recipe_data
    (paprika_data : pyval) (output_dir source_name : string) : M unit :=
  schema_recipe <- lift (paprika_to_schemaorg paprika_data) ;;
  let recipe_name := dict_get schema_recipe "name" (PStr "Untitled") in
  folder_name <- lift (safe_dirname_dyn recipe_name) ;;
  let recipe_folder := path_join output_dir folder_name in
  makedirs recipe_folder ;;;
  photo_data <- lift (get_dyn paprika_data "photo_data" PNone) ;;
  schema_recipe <-
    (if truthy photo_data then
       try_except
         (raw <- lift (Base64.b64decode photo_data) ;;
          let full_path := path_join recipe_folder "full.jpg" in
          write_file full_path (Raw raw) ;;;
          ret (<["image" := PStr "full.jpg"]> schema_recipe))
         (λ e, print (MsgPhotoError recipe_name e) ;;; ret schema_recipe)
     else ret schema_recipe) ;;
  let out_json_path := path_join recipe_folder "recipe.json" in
  try_except
    (write_file out_json_path (JsonText (PDict schema_recipe)) ;;;
     print (MsgConverted
              (if nonempty source_name then PStr source_name else recipe_name)
              out_json_path))
    (λ e, print (MsgWriteError recipe_name e)).

(** ** The input resolvers *)

Definition process_paprikarecipe_file (file_path output_dir : string) : M unit :=
  try_except
    (paprika_data <-
       (compressed <- read_file file_path ;;
        text <- lift (gzip_decompress compressed) ;;
        lift (json_loads text)) ;;
     process_recipe_data paprika_data output_dir (basename file_path))
    (λ e, print (MsgFileError file_path e)).

(** The body of the loop over [zf.namelist()]. *)
Definition process_member
    (zf : list (string * fdata)) (zip_path output_dir member : string) : M unit :=
  if endswith (lower member) ".paprikarecipe" then
    try_except
      (compressed_data <- lift (zip_read zf member) ;;
       text_data <- lift (gzip_decompress compressed_data) ;;
       paprika_data <- lift (json_loads text_data) ;;
       process_recipe_data paprika_data output_dir member)
      (λ e, print (MsgMemberError member zip_path e))
  else ret tt.

Definition process_bulk_export (zip_path output_dir : string) : M unit :=
  try_except
    (zf <- ZipFile zip_path ;;
     for_each (namelist zf) (process_member zf zip_path output_dir))
    (λ e, print (MsgBulkError zip_path e)).

(** ** The entry point *)

(** [sys.argv[i]] once the length is known to suffice. *)
Definition argv_at (argv : list string) (i : nat) : string := nth i argv "".

Definition main (argv : list string) : M unit :=
  if (length argv <? 3)%nat then
    print MsgUsage ;;; raise (SystemExit 1)
  else
    let input_path := argv_at argv 1 in
    let output_dir := argv_at argv 2 in
    makedirs output_dir ;;;
    is_dir <- isdir input_path ;;
    (if is_dir then
       names <- listdir input_path ;;
       for_each names (λ fname,
         let file_path := path_join input_path fname in
         is_file <- isfile file_path ;;
         if is_file && endswith (lower fname) ".paprikarecipe" then
           process_paprikarecipe_file file_path output_dir
         else ret tt)
     else
       is_file <- isfile input_path ;;
       if is_file then
         if endswith (lower input_path) ".paprikarecipes" then
           process_bulk_export input_path output_dir
         else if endswith (lower input_path) ".paprikarecipe" then
           process_paprikarecipe_file input_path output_dir
         else print (MsgUnrecognized input_path)
       else
         print (MsgNeither input_path) ;;; raise (SystemExit 1)) ;;;
    print (MsgDone output_dir).

(** Running the script: the exit status and the world it leaves. *)
Definition run (argv : list string) (w : world) : Z * world :=
  let (r, w') := main argv w in (exit_status r, w').

(** ** Closed forms

    What the record materializer does when nothing stands in its way,
    written without the monad; the theorems prove that the code does it. *)

(** The outcome of decoding [photo_data]; [None] when the record has none
    that [if photo_data:] lets through. *)
Definition photo_outcome (d : gmap string pyval) : option (res (list byte)) :=
  let photo_data := dict_get d "photo_data" PNone in
  if truthy photo_data then Some (Base64.b64decode photo_data) else None.

(** The record that [recipe.json] receives. *)
Definition written_schema (d : gmap string pyval) : gmap string pyval :=
  match photo_outcome d with
  | Some (Ok _) => <["image" := PStr "full.jpg"]> (schema_of_dict d)
  | _ => schema_of_dict d
  end.

(** The lines printed for one record. *)
Definition record_messages
    (d : gmap string pyval) (n output_dir source_name : string) : list msg :=
  match photo_outcome d with
  | Some (Raise e) => [MsgPhotoError (PStr n) e]
  | _ => []
  end
  ++ [MsgConverted
        (if nonempty source_name then PStr source_name else PStr n)
        (path_join (path_join output_dir (safe_dirname n)) "recipe.json")].

(** The path of a recipe's folder. *)
Definition folder_of (output_dir n : string) : path :=
  parse_path output_dir ++ [safe_dirname n].

(** The files of one record, added to the file system [f1] that
    [os.makedirs] left. *)
Definition record_files
    (d : gmap string pyval) (n output_dir : string) (f1 : gmap path node)
    : gmap path node :=
  let qf := folder_of output_dir n in
  let f2 := match photo_outcome d with
            | Some (Ok raw) => <[qf ++ ["full.jpg"] := File (Raw raw)]> f1
            | _ => f1
            end in
  <[qf ++ ["recipe.json"] := File (JsonText (PDict (written_schema d)))]> f2.

Definition not_dir (o : option node) : bool :=
  match o with Some Dir => false | _ => true end.

Definition not_file (o : option node) : bool :=
  match o with Some (File _) => false | _ => true end.

(** Every directory on the way down from [done] to [done ++ todo] exists. *)
Fixpoint dirs_from (f : gmap path node) (done todo : path) : bool :=
  match todo with
  | [] => true
  | n :: todo' =>
      match f !! (done ++ [n]) with
      | Some Dir => dirs_from f (done ++ [n]) todo'
      | _ => false
      end
  end.

(** The folder of the recipe named [n] can be made, and neither of its two
    file names is taken by a directory. *)
Definition writable (f : gmap path node) (output_dir n : string) : bool :=
  let qf := folder_of output_dir n in
  match makedirs_from f [] qf with Ok _ => true | Raise _ => false end
  && not_dir (f !! (qf ++ ["full.jpg"]))
  && not_dir (f !! (qf ++ ["recipe.json"])).

(** The output directory exists, and nothing in it blocks the folder of
    the recipe named [n] or its two files. *)
Definition ready (f : gmap path node) (output_dir n : string) : bool :=
  let qf := folder_of output_dir n in
  dirs_from f [] (parse_path output_dir)
  && not_file (f !! qf)
  && not_dir (f !! (qf ++ ["full.jpg"]))
  && not_dir (f !! (qf ++ ["recipe.json"])).

(** The record an archive member holds: read, decompressed and parsed. *)
Definition member_record (zf : list (string * fdata)) (member : string) : res pyval :=
  match zip_read zf member with
  | Ok compressed_data =>
      match gzip_decompress compressed_data with
      | Ok text_data => json_loads text_data
      | Raise e => Raise e
      end
  | Raise e => Raise e
  end.


(** A computation that lets nothing but an [Exception] escape. *)
Definition raises_only_exceptions {A} (m : M A) : Prop :=
  ∀ w e w', m w = (Raise e, w') → is_Exception e = true.

(** A computation that always returns. *)
Definition never_raises (m : M unit) : Prop :=
  ∀ w, ∃ w', m w = (Ok tt, w').

(** The number of error lines on the console. *)
Definition error_count (out : list msg) : nat :=
  length (List.filter is_error out).

(** ** Sample inputs *)

Module Sample.

(** The record [{"name": "Tea", "rating": 4}]. *)
Definition tea : gmap string pyval :=
  dict_of_items [ ("name", PStr "Tea"); ("rating", PInt 4) ].

(** A record with a name, an image address and a photo. *)
Definition with_photo (photo_data : string) : gmap string pyval :=
  dict_of_items
    [ ("name", PStr "Tea"); ("image_url", PStr "http://example.org/tea.png");
      ("photo_data", PStr photo_data) ].

Definition coffee : gmap string pyval :=
  dict_of_items [ ("name", PStr "Coffee") ].



(** A file system with an empty output directory [out], a single-record
    file, a regular file [blocked], and a bulk export of two good members
    and a corrupt one. *)
Definition archive : list (string * fdata) :=
  [ ("tea.paprikarecipe", Gz (JsonText (PDict tea)));
    ("broken.paprikarecipe", Raw []);
    ("coffee.paprikarecipe", Gz (JsonText (PDict coffee))) ].

Definition files : gmap path node :=
  list_to_map
    [ (["out"], Dir);
      (["tea.paprikarecipe"], File (Gz (JsonText (PDict tea))));
      (["blocked"], File (Raw []));
      (["export.paprikarecipes"], File (Zip archive)) ].

Definition start : world := World files [].

End Sample.

(** ** The specification's wording

    The definitions of this module are written from the sentences of the
    specification, not from the code; the theorems compare the two. *)

Module Spec.

(** A string with no whitespace at its left end. *)
Definition starts_clean (s : string) : Prop :=
  match s with
  | "" => True
  | String c _ => isspace c = false
  end.

(** A string with no whitespace at its right end. *)
Fixpoint ends_clean (s : string) : Prop :=
  match s with
  | "" => True
  | String c "" => isspace c = false
  | String _ s' => ends_clean s'
  end.

(** "Trim leading/trailing whitespace": [t] is [s] without a whitespace
    prefix [l] and a whitespace suffix [r], and has no whitespace at
    either end. *)
Definition trimmed (s t : string) : Prop :=
  ∃ l r, s = l +:+ t +:+ r
         ∧ string_forall isspace l = true
         ∧ string_forall isspace r = true
         ∧ starts_clean t ∧ ends_clean t.

(** "Collapse any run of whitespace characters into a single underscore":
    other characters are kept; a non-empty run of whitespace that the next
    character does not extend becomes one underscore. *)
Inductive runs_collapsed : string → string → Prop :=
| collapsed_nil : runs_collapsed "" ""
| collapsed_keep c s t :
    isspace c = false →
    runs_collapsed s t →
    runs_collapsed (String c s) (String c t)
| collapsed_run run s t :
    run ≠ "" →
    string_forall isspace run = true →
    starts_clean s →
    runs_collapsed s t →
    runs_collapsed (run +:+ s) (String "_" t).

(** "Alphanumeric, underscore, or hyphen". *)
Definition allowed (c : ascii) : bool :=
  isalnum c || Ascii.eqb c "_" || Ascii.eqb c "-".



(** A character the sanitizer leaves where it is. *)
Definition stable_char (c : ascii) : bool :=
  allowed c && Ascii.eqb (lower_char c) c.

(** The sanitizer's algorithm, sentence by sentence. *)
Definition sanitized (name result : string) : Prop :=
  ∃ t u, trimmed name t
         ∧ runs_collapsed (lower t) u
         ∧ result = (if nonempty (string_filter allowed u)
                     then string_filter allowed u
                     else "unnamed_recipe").

(** "Split on newline, trim each resulting line, discard empty lines,
    preserve order". *)
Definition lines (s : string) : list string :=
  List.filter nonempty (strip <$> split_char newline s).

(** Base64 text in the sense of RFC 4648: characters of the alphabet in
    groups of four, the last group padded with one or two [=]. *)
Fixpoint base64_body (s : string) : bool :=
  match s with
  | "" | "=" | "==" => true
  | String c s' =>
      match Base64.value c with
      | Some _ => base64_body s'
      | None => false
      end
  end.

Definition is_base64 (s : string) : bool :=
  (String.length s mod 4 =? 0)%nat && base64_body s.

(** The string-valued fields of a Source Record, each with the field of the
    Target Record it is copied to. *)
Definition string_fields : list (string * string) :=
  [ ("name", "name"); ("image_url", "image"); ("description", "description");
    ("cook_time", "cookTime"); ("prep_time", "prepTime");
    ("total_time", "totalTime"); ("servings", "recipeYield");
    ("source", "author"); ("source_url", "url"); ("notes", "notes");
    ("difficulty", "difficulty"); ("nutritional_info", "nutritionalInfo") ].

(** The newline-delimited fields, and all the fields that map to a sequence. *)
Definition line_fields : list (string * string) :=
  [ ("ingredients", "recipeIngredient"); ("directions", "recipeInstructions") ].

Definition sequence_fields : list (string * string) :=
  line_fields ++ [ ("categories", "category") ].

(** The keys of a Target Record. *)
Definition target_keys : list string :=
  [ "@context"; "@type"; "name"; "image"; "recipeIngredient";
    "recipeInstructions"; "description"; "cookTime"; "prepTime"; "totalTime";
    "recipeYield"; "aggregateRating"; "author"; "url"; "notes"; "difficulty";
    "nutritionalInfo"; "category" ].

End Spec.

(** ** Further closed forms *)

(** The keys of a Source Record that the mapper reads. *)
Definition source_keys : list string :=
  [ "name"; "image_url"; "directions"; "ingredients"; "description";
    "cook_time"; "prep_time"; "total_time"; "servings"; "rating"; "source";
    "source_url"; "notes"; "difficulty"; "nutritional_info"; "categories" ].

(** A line as the mapper keeps it: not empty, no whitespace at either end,
    no newline inside. *)
Definition clean_line (line : string) : Prop :=
  nonempty line = true ∧ strip line = line
  ∧ string_forall (λ c, negb (Ascii.eqb c newline)) line = true.

(** The name a record is filed under: none when the record is not a
    dictionary or its name is not a string. *)
Definition record_name (v : pyval) : option string :=
  match v with
  | PDict d =>
      match dict_get d "name" (PStr "Untitled") with
      | PStr n => Some n
      | _ => None
      end
  | _ => None
  end.

(** The recipe's folder can be made: no regular file is in the way. *)
Definition creatable (f : gmap path node) (output_dir n : string) : bool :=
  match makedirs_from f [] (folder_of output_dir n) with
  | Ok _ => true
  | Raise _ => false
  end.

(** A member name that the loop over the archive selects. *)
Definition selected (member : string) : bool :=
  endswith (lower member) ".paprikarecipe".

(** The record a single-record file holds: opened, decompressed, parsed. *)
Definition file_record (f : gmap path node) (file_path : string) : res pyval :=
  match stat f file_path with
  | Some (File compressed) =>
      match gzip_decompress compressed with
      | Ok text => json_loads text
      | Raise e => Raise e
      end
  | Some Dir => Raise IsADirectoryError
  | None => Raise FileNotFoundError
  end.


(** The last character of a string. *)
Fixpoint string_last (s : string) : option ascii :=
  match s with
  | "" => None
  | String c "" => Some c
  | String _ s' => string_last s'
  end.

(** World [w'] differs from [w] only within the tree of [out]: nothing
    changed at a path that is neither above nor below [out]; whatever
    existed in [w] is still there unchanged, unless it is a regular file
    named [full.jpg] or [recipe.json]; and the console only grew. *)
Definition within (out : path) (w w' : world) : Prop :=
  (∀ q : path, ¬ q `prefix_of` out → ¬ out `prefix_of` q →
               fs w' !! q = fs w !! q)
  ∧ (∀ (q : path) x,
       fs w !! q = Some x →
       x = Dir ∨ (last q ≠ Some "full.jpg" ∧ last q ≠ Some "recipe.json") →
       fs w' !! q = Some x)
  ∧ ∃ added, stdout w' = stdout w ++ added.

(** A computation that stays within the tree of [out], however it ends. *)
Definition confined {A} (out : path) (m : M A) : Prop :=
  ∀ w r w', m w = (r, w') → within out w w'.

(** Two paths neither of which lies in the tree of the other. *)
Definition apart (a b : path) : Prop :=
  ¬ a `prefix_of` b ∧ ¬ b `prefix_of` a.

(** The names [os.listdir] returns for a directory. *)
Definition listing (f : gmap path node) (p : string) : list string :=
  omap (λ kv, child_name (parse_path p) kv.1) (map_to_list f).

(** [os.path.isfile]. *)
Definition is_file_at (f : gmap path node) (p : string) : bool :=
  match stat f p with Some (File _) => true | _ => false end.

(** The entries of a directory that the loop of [main] hands on: regular
    files whose name ends in [.paprikarecipe], in the order of the
    listing. *)
Definition record_files_in (f : gmap path node) (input_path : string) : list string :=
  List.filter
    (λ fname, is_file_at f (path_join input_path fname) && selected fname)
    (listing f input_path).

(** A file system with an input directory [in], holding a record file, a
    text file and a subdirectory with a further record file, and an empty
    output directory [out]. *)
Definition inbox : gmap path node :=
  list_to_map
    [ (["in"], Dir);
      (["in"; "tea.paprikarecipe"], File (Gz (JsonText (PDict Sample.tea))));
      (["in"; "notes.txt"], File (Raw []));
      (["in"; "sub"], Dir);
      (["in"; "sub"; "coffee.paprikarecipe"],
       File (Gz (JsonText (PDict Sample.coffee))));
      (["out"], Dir) ].

(** * Theorems *)

(** ** Characters *)

Ltac by_cases_on_char c :=
  destruct c as [[] [] [] [] [] [] [] []]; vm_compute; try reflexivity; try discriminate; auto.

Lemma eqb_underscore c : Ascii.eqb c "_" = (cp c =? 95)%N.
Proof. by_cases_on_char c. Qed.

Lemma allowed_not_class c : not_word_or_hyphen c = negb (Spec.allowed c).
Proof.
  unfold not_word_or_hyphen, Spec.allowed, isword.
  by rewrite eqb_underscore.
Qed.

Lemma lower_char_idem c : lower_char (lower_char c) = lower_char c.
Proof. by_cases_on_char c. Qed.

Lemma allowed_not_space c : Spec.allowed c = true → isspace c = false.
Proof. by_cases_on_char c. Qed.

Lemma allowed_not_slash c : Spec.allowed c = true → Ascii.eqb c slash = false.
Proof. by_cases_on_char c. Qed.

(** ** Strings *)

Lemma app_cons c s t : String c s +:+ t = String c (s +:+ t).
Proof. reflexivity. Qed.

Lemma app_empty_l t : "" +:+ t = t.
Proof. reflexivity. Qed.

Lemma app_empty_r s : s +:+ "" = s.
Proof. induction s as [|c s IH]; [done|]. by rewrite app_cons, IH. Qed.

Lemma app_assoc_s s t u : (s +:+ t) +:+ u = s +:+ t +:+ u.
Proof. induction s as [|c s IH]; [done|]. by rewrite !app_cons, IH. Qed.

Lemma string_forall_impl (p q : ascii → bool) s :
  (∀ c, p c = true → q c = true) →
  string_forall p s = true → string_forall q s = true.
Proof.
  intros Hpq. induction s as [|c s IH]; [done|]. simpl.
  intros [Hc Hs]%andb_true_iff. by rewrite (Hpq c Hc), IH.
Qed.

Lemma string_forall_filter p q s :
  string_forall p s = true → string_forall p (string_filter q s) = true.
Proof.
  induction s as [|c s IH]; [done|]. simpl.
  intros [Hc Hs]%andb_true_iff.
  destruct (q c); simpl; [rewrite Hc|]; auto.
Qed.

Lemma string_forall_filter_self p s : string_forall p (string_filter p s) = true.
Proof.
  induction s as [|c s IH]; [done|]. simpl.
  destruct (p c) eqn:Hc; simpl; [rewrite Hc|]; auto.
Qed.

Lemma string_filter_all p s : string_forall p s = true → string_filter p s = s.
Proof.
  induction s as [|c s IH]; [done|]. simpl.
  intros [Hc Hs]%andb_true_iff. by rewrite Hc, IH.
Qed.

(** *** strip *)

Lemma lstrip_spaces l s :
  string_forall isspace l = true → lstrip (l +:+ s) = lstrip s.
Proof.
  induction l as [|c l IH]; [done|]. simpl.
  intros [Hc Hl]%andb_true_iff. rewrite Hc. auto.
Qed.

Lemma lstrip_all_spaces r : string_forall isspace r = true → lstrip r = "".
Proof.
  intros Hr. rewrite <- (app_empty_r r). by rewrite lstrip_spaces.
Qed.

Lemma lstrip_clean s : Spec.starts_clean s → lstrip s = s.
Proof. destruct s as [|c s]; [done|]. simpl. by intros ->. Qed.

Lemma lstrip_starts_clean s : Spec.starts_clean (lstrip s).
Proof.
  induction s as [|c s IH]; [done|]. simpl.
  destruct (isspace c) eqn:Hc; [done|]. exact Hc.
Qed.

Lemma lstrip_decomp s :
  ∃ l, s = l +:+ lstrip s ∧ string_forall isspace l = true.
Proof.
  induction s as [|c s (l & Hs & Hl)]; [by exists ""|]. simpl.
  destruct (isspace c) eqn:Hc.
  - exists (String c l). rewrite app_cons, <- Hs. simpl. by rewrite Hc, Hl.
  - by exists "".
Qed.

Lemma rstrip_all_spaces r : string_forall isspace r = true → rstrip r = "".
Proof.
  induction r as [|c r IH]; [done|]. simpl.
  intros [Hc Hr]%andb_true_iff. by rewrite (IH Hr), Hc.
Qed.

Lemma rstrip_spaces t r :
  string_forall isspace r = true → Spec.ends_clean t → rstrip (t +:+ r) = t.
Proof.
  intros Hr. induction t as [|c t IH]; intros Ht.
  - by apply rstrip_all_spaces.
  - rewrite app_cons. simpl. destruct t as [|c' t].
    + simpl in Ht. rewrite app_empty_l, (rstrip_all_spaces r Hr). by rewrite Ht.
    + rewrite IH by exact Ht. done.
Qed.

Lemma rstrip_ends_clean s : Spec.ends_clean (rstrip s).
Proof.
  induction s as [|c s IH]; [done|]. simpl.
  destruct (rstrip s) as [|c' s'] eqn:Hs.
  - destruct (isspace c) eqn:Hc; [done|]. exact Hc.
  - exact IH.
Qed.

Lemma rstrip_starts_clean s : Spec.starts_clean s → Spec.starts_clean (rstrip s).
Proof.
  destruct s as [|c s]; [done|]. simpl. intros Hc.
  destruct (rstrip s); [by rewrite Hc|done].
Qed.

Lemma rstrip_decomp s :
  ∃ r, s = rstrip s +:+ r ∧ string_forall isspace r = true.
Proof.
  induction s as [|c s (r & Hs & Hr)]; [by exists ""|]. simpl.
  destruct (rstrip s) as [|c' s'] eqn:E.
  - rewrite app_empty_l in Hs. subst r. destruct (isspace c) eqn:Hc.
    + exists (String c s). simpl. by rewrite Hc, Hr.
    + by exists s.
  - exists r. by rewrite app_cons, <- Hs.
Qed.

Lemma strip_trimmed s : Spec.trimmed s (strip s).
Proof.
  destruct (lstrip_decomp s) as (l & Hs & Hl).
  destruct (rstrip_decomp (lstrip s)) as (r & Ht & Hr).
  exists l, r. unfold strip. rewrite <- Ht, <- Hs.
  repeat split; auto using rstrip_ends_clean, rstrip_starts_clean, lstrip_starts_clean.
Qed.

Lemma trimmed_unique s t : Spec.trimmed s t → t = strip s.
Proof.
  intros (l & r & -> & Hl & Hr & Hst & Hen). unfold strip.
  rewrite lstrip_spaces by done.
  destruct t as [|c t].
  - by rewrite app_empty_l, lstrip_all_spaces.
  - rewrite lstrip_clean; [by rewrite rstrip_spaces|]. exact Hst.
Qed.

(** *** Substitution of whitespace runs *)

Lemma sub_plus_after_run run s repl :
  string_forall isspace run = true → Spec.starts_clean s →
  re_sub_class_plus_from isspace repl true (run +:+ s)
  = re_sub_class_plus_from isspace repl false s.
Proof.
  intros Hrun Hs. induction run as [|c run IH].
  - rewrite app_empty_l. destruct s as [|c s]; [done|]. simpl in *. by rewrite Hs.
  - simpl in Hrun. apply andb_true_iff in Hrun as [Hc Hrun].
    rewrite app_cons. simpl. rewrite Hc. auto.
Qed.

Lemma collapsed_sound u v :
  Spec.runs_collapsed u v → v = re_sub_class_plus isspace "_" u.
Proof.
  unfold re_sub_class_plus.
  induction 1 as [|c s t Hc _ IH|run s t Hne Hrun Hs _ IH]; [done|..].
  - simpl. by rewrite Hc, IH.
  - destruct run as [|c run]; [done|]. simpl in Hrun.
    apply andb_true_iff in Hrun as [Hc Hrun].
    rewrite app_cons. simpl. rewrite Hc.
    by rewrite sub_plus_after_run, IH.
Qed.

Lemma collapsed_extend c s t :
  isspace c = true → ¬ Spec.starts_clean s →
  Spec.runs_collapsed s t → Spec.runs_collapsed (String c s) t.
Proof.
  intros Hc Hs H. destruct H as [|d s t Hd H|run s t Hne Hrun Hcl H].
  - by destruct Hs.
  - by destruct Hs.
  - rewrite <- app_cons. apply Spec.collapsed_run; auto.
    simpl. by rewrite Hc, Hrun.
Qed.

Lemma collapsed_complete u :
  Spec.runs_collapsed u (re_sub_class_plus_from isspace "_" false u)
  ∧ ∀ c, isspace c = true →
         Spec.runs_collapsed (String c u)
           (String "_" (re_sub_class_plus_from isspace "_" true u)).
Proof.
  induction u as [|d u [IH1 IH2]].
  - split; [constructor|]. intros c Hc.
    apply (Spec.collapsed_run (String c "") ""); try done; [|constructor].
    simpl. by rewrite Hc.
  - destruct (isspace d) eqn:Hd.
    + split.
      * simpl. rewrite Hd. by apply IH2.
      * intros c Hc. simpl. rewrite Hd. apply collapsed_extend; auto.
        simpl. by rewrite Hd.
    + assert (Spec.runs_collapsed (String d u)
                (String d (re_sub_class_plus_from isspace "_" false u))) as Hk
        by (by constructor).
      split.
      * simpl. by rewrite Hd.
      * intros c Hc. simpl. rewrite Hd.
        apply (Spec.collapsed_run (String c "") (String d u)); try done.
        simpl. by rewrite Hc.
Qed.

Lemma sub_class_is_filter s :
  re_sub_class not_word_or_hyphen "" s = string_filter Spec.allowed s.
Proof.
  induction s as [|c s IH]; [done|]. simpl.
  rewrite allowed_not_class, app_empty_l, IH. by destruct (Spec.allowed c).
Qed.

(** ** The name sanitizer *)

Lemma safe_dirname_unfold name :
  safe_dirname name =
  let u := re_sub_class_plus isspace "_" (lower (strip name)) in
  if nonempty (string_filter Spec.allowed u)
  then string_filter Spec.allowed u else "unnamed_recipe".
Proof. unfold safe_dirname. by rewrite sub_class_is_filter. Qed.

(** C1. [safe_dirname] computes what the specification's algorithm
    describes: trim, lowercase, whitespace runs to one underscore, delete
    what is not alphanumeric, underscore or hyphen, and fall back to
    [unnamed_recipe] on an empty result. The result of the algorithm is
    unique, so the function is the algorithm; the documented examples
    evaluate as stated. *)
Theorem safe_dirname_refines_spec :
  (∀ name, Spec.sanitized name (safe_dirname name))
  ∧ (∀ name result, Spec.sanitized name result → result = safe_dirname name)
  ∧ safe_dirname "Grandma's Apple Pie!" = "grandmas_apple_pie"
  ∧ safe_dirname "" = "unnamed_recipe"
  ∧ safe_dirname "   " = "unnamed_recipe"
  ∧ safe_dirname "!?*" = "unnamed_recipe".
Proof.
  split; [|split; [|by vm_compute]].
  - intros name. exists (strip name), (re_sub_class_plus isspace "_" (lower (strip name))).
    split; [apply strip_trimmed|]. split; [apply collapsed_complete|].
    apply safe_dirname_unfold.
  - intros name result (t & u & Ht & Hu & ->).
    apply trimmed_unique in Ht as ->. apply collapsed_sound in Hu as ->.
    symmetry. apply safe_dirname_unfold.
Qed.


Lemma stable_char_lower c : Spec.stable_char c = true → lower_char c = c.
Proof. by_cases_on_char c. Qed.

Lemma stable_char_allowed c : Spec.stable_char c = true → Spec.allowed c = true.
Proof. unfold Spec.stable_char. by intros [? _]%andb_true_iff. Qed.

Lemma lower_chars_fixed t :
  string_forall (λ c, Ascii.eqb (lower_char c) c) (lower t) = true.
Proof.
  induction t as [|c t IH]; [done|]. simpl.
  by rewrite lower_char_idem, Ascii.eqb_refl.
Qed.

Lemma sub_plus_forall (p : ascii → bool) b s :
  p "_"%char = true →
  string_forall p s = true →
  string_forall p (re_sub_class_plus_from isspace "_" b s) = true.
Proof.
  intros Hu. revert b. induction s as [|c s IH]; intros b; [done|]. simpl.
  intros [Hc Hs]%andb_true_iff.
  destruct (isspace c), b; rewrite ?app_cons, ?app_empty_l; simpl;
    rewrite ?Hu, ?Hc; simpl; auto.
Qed.

Lemma safe_dirname_stable s : string_forall Spec.stable_char (safe_dirname s) = true.
Proof.
  rewrite safe_dirname_unfold. cbv zeta.
  set (u := re_sub_class_plus isspace "_" (lower (strip s))).
  destruct (nonempty (string_filter Spec.allowed u)); [|by vm_compute].
  assert (string_forall (λ c, Ascii.eqb (lower_char c) c) (string_filter Spec.allowed u) = true)
    as Hlow.
  { apply string_forall_filter, sub_plus_forall; [done|apply lower_chars_fixed]. }
  pose proof (string_forall_filter_self Spec.allowed u) as Hall.
  revert Hlow Hall. generalize (string_filter Spec.allowed u). intros r.
  induction r as [|c r IH]; [done|]. simpl. unfold Spec.stable_char at 1.
  intros [-> Hr]%andb_true_iff [-> Hr']%andb_true_iff. auto.
Qed.

Lemma safe_dirname_nonempty s : nonempty (safe_dirname s) = true.
Proof.
  unfold safe_dirname. cbv zeta.
  by destruct (nonempty (re_sub_class _ _ _)) eqn:E.
Qed.

Lemma no_space_rstrip r :
  string_forall (λ c, negb (isspace c)) r = true → rstrip r = r.
Proof.
  induction r as [|c r IH]; [done|]. simpl.
  intros [Hc Hr]%andb_true_iff. rewrite (IH Hr).
  apply negb_true_iff in Hc. rewrite Hc. by destruct r.
Qed.

Lemma no_space_strip r :
  string_forall (λ c, negb (isspace c)) r = true → strip r = r.
Proof.
  intros Hr. unfold strip. rewrite lstrip_clean; [by apply no_space_rstrip|].
  destruct r as [|c r]; [done|]. simpl in *.
  apply andb_true_iff in Hr as [Hc _]. by apply negb_true_iff.
Qed.

Lemma no_space_sub_plus r :
  string_forall (λ c, negb (isspace c)) r = true →
  re_sub_class_plus isspace "_" r = r.
Proof.
  unfold re_sub_class_plus. induction r as [|c r IH]; [done|]. simpl.
  intros [Hc Hr]%andb_true_iff. apply negb_true_iff in Hc. by rewrite Hc, IH.
Qed.

Lemma lower_fixed r :
  string_forall (λ c, Ascii.eqb (lower_char c) c) r = true → lower r = r.
Proof.
  induction r as [|c r IH]; [done|]. simpl.
  intros [Hc%Ascii.eqb_eq Hr]%andb_true_iff. by rewrite Hc, IH.
Qed.

Lemma stable_fixed r :
  string_forall Spec.stable_char r = true → nonempty r = true → safe_dirname r = r.
Proof.
  intros Hr Hne. rewrite safe_dirname_unfold. cbv zeta.
  assert (string_forall (λ c, negb (isspace c)) r = true) as Hsp.
  { revert Hr. apply string_forall_impl. intros c Hc.
    apply negb_true_iff, allowed_not_space. by apply stable_char_allowed. }
  assert (string_forall (λ c, Ascii.eqb (lower_char c) c) r = true) as Hlow.
  { revert Hr. apply string_forall_impl. intros c Hc.
    apply Ascii.eqb_eq. by apply stable_char_lower. }
  assert (string_forall Spec.allowed r = true) as Hall.
  { revert Hr. apply string_forall_impl, stable_char_allowed. }
  rewrite no_space_strip, lower_fixed, no_space_sub_plus, string_filter_all by done.
  by rewrite Hne.
Qed.


(** ** The record mapper *)

Ltac schema_lookup :=
  unfold schema_of_dict, aggregate_rating, dict_of_items; cbn [fold_left fst snd];
  repeat first
    [ rewrite lookup_insert_eq
    | rewrite lookup_insert_ne by done
    | rewrite lookup_empty ].

Ltac each_field H :=
  repeat (apply elem_of_cons in H as [[= -> ->]|H]); [..|by apply elem_of_nil in H].

Lemma stripped_lines_spec l :
  stripped_lines l = List.filter nonempty (strip <$> l).
Proof.
  induction l as [|line l IH]; [done|]. simpl.
  destruct (nonempty (strip line)); by rewrite IH.
Qed.

Lemma lines_field_spec d key :
  lines_field d key =
  match d !! key with Some (PStr s) => Spec.lines s | _ => [] end.
Proof.
  unfold lines_field, Spec.lines.
  destruct (d !! key) as [[]|]; try done. apply stripped_lines_spec.
Qed.

Lemma schema_name d :
  schema_of_dict d !! "name" = Some (dict_get d "name" (PStr "Untitled")).
Proof. by schema_lookup. Qed.

Lemma schema_rating d :
  schema_of_dict d !! "aggregateRating" = Some (PDict (aggregate_rating d)).
Proof. by schema_lookup. Qed.

(** C3, as stated, fails on the name: a record without [name] is given the
    name [Untitled], not the empty string. *)
Lemma mapper_name_default_is_not_empty :
  ¬ (∀ (d : gmap string pyval) src tgt,
       (src, tgt) ∈ Spec.string_fields → d !! src = None →
       schema_of_dict d !! tgt = Some (PStr "")).
Proof.
  intros H. specialize (H ∅ "name" "name").
  rewrite schema_name in H. unfold dict_get in H. rewrite lookup_empty in H.
  simpl in H. discriminate H; [|done]. unfold Spec.string_fields. set_solver.
Qed.

(** C3, amended. On every dictionary the mapper returns a record and raises
    nothing; being a function of its argument, it gives identical records
    for identical inputs. An absent [name] gives [Untitled]; every other
    absent string-valued field gives the empty string; an absent [rating]
    gives the rating value 0; an absent sequence-valued field gives the
    empty list. *)
Theorem mapper_total_with_defaults (d : gmap string pyval) :
  paprika_to_schemaorg (PDict d) = Ok (schema_of_dict d)
  ∧ (d !! "name" = None → schema_of_dict d !! "name" = Some (PStr "Untitled"))
  ∧ (∀ src tgt, (src, tgt) ∈ Spec.string_fields → src ≠ "name" →
       d !! src = None → schema_of_dict d !! tgt = Some (PStr ""))
  ∧ (d !! "rating" = None →
       ∃ agg, schema_of_dict d !! "aggregateRating" = Some (PDict agg)
              ∧ agg !! "ratingValue" = Some (PInt 0))
  ∧ (∀ src tgt, (src, tgt) ∈ Spec.sequence_fields →
       d !! src = None → schema_of_dict d !! tgt = Some (PList [])).
Proof.
  split; [done|]. split; [|split; [|split]].
  - intros H. rewrite schema_name. unfold dict_get. by rewrite H.
  - intros src tgt Hin Hne Hsrc. unfold Spec.string_fields in Hin.
    each_field Hin; try done; schema_lookup; unfold dict_get; by rewrite Hsrc.
  - intros H. exists (aggregate_rating d). split; [apply schema_rating|].
    schema_lookup. unfold dict_get. by rewrite H.
  - intros src tgt Hin Hsrc.
    unfold Spec.sequence_fields, Spec.line_fields in Hin. simpl in Hin.
    each_field Hin; schema_lookup; rewrite ?lines_field_spec; unfold dict_get;
      by rewrite Hsrc.
Qed.


(** C5. The [aggregateRating] object of the Target Record has the source's
    [rating] as its [ratingValue], 0 when the source has none, and the
    constant 1 as its [ratingCount], whatever else the source holds. The
    record [{"name": "Tea", "rating": 4}] gives the name [Tea], the rating
    value 4 and the rating count 1. *)
Theorem mapper_aggregate_rating (d : gmap string pyval) :
  (∃ agg, schema_of_dict d !! "aggregateRating" = Some (PDict agg)
          ∧ agg !! "ratingValue" = Some (dict_get d "rating" (PInt 0))
          ∧ (d !! "rating" = None → agg !! "ratingValue" = Some (PInt 0))
          ∧ agg !! "ratingCount" = Some (PInt 1))
  ∧ schema_of_dict Sample.tea !! "name" = Some (PStr "Tea")
  ∧ schema_of_dict Sample.tea !! "aggregateRating" =
    Some (PDict (dict_of_items [ ("@type", PStr "AggregateRating");
                                 ("ratingValue", PInt 4);
                                 ("ratingCount", PInt 1) ])).
Proof.
  split; [|split; vm_compute; reflexivity].
  exists (aggregate_rating d). split; [apply schema_rating|].
  repeat split; schema_lookup; try done.
  intros H. unfold dict_get. by rewrite H.
Qed.

(** C10. The Target Record of every Source Record has exactly the eighteen
    fixed keys, with [@context] the schema.org address and [@type] the word
    [Recipe]; no other key of the source, [photo_data] included, appears
    in it. *)
Theorem mapper_fixed_keys (d : gmap string pyval) :
  paprika_to_schemaorg (PDict d) = Ok (schema_of_dict d)
  ∧ dom (schema_of_dict d) = list_to_set Spec.target_keys
  ∧ NoDup Spec.target_keys ∧ length Spec.target_keys = 18%nat
  ∧ schema_of_dict d !! "@context" = Some (PStr "https://schema.org/")
  ∧ schema_of_dict d !! "@type" = Some (PStr "Recipe")
  ∧ (∀ k, k ∉ Spec.target_keys → schema_of_dict d !! k = None)
  ∧ schema_of_dict d !! "photo_data" = None.
Proof.
  assert (dom (schema_of_dict d) = list_to_set Spec.target_keys) as Hdom.
  { unfold schema_of_dict, dict_of_items, Spec.target_keys.
    cbn [fold_left fst snd]. rewrite !dom_insert_L, dom_empty_L. set_solver. }
  split; [done|]. split; [exact Hdom|]. split.
  { unfold Spec.target_keys. by apply (bool_decide_unpack _). }
  split; [done|]. split; [by schema_lookup|]. split; [by schema_lookup|].
  split; [|by schema_lookup].
  intros k Hk. apply not_elem_of_dom. rewrite Hdom.
  by rewrite elem_of_list_to_set.
Qed.

(** ** Paths *)

Lemma split_char_not_nil sep s : split_char sep s ≠ [].
Proof.
  destruct s as [|c s]; [done|]. simpl.
  destruct (Ascii.eqb c sep); [done|]. by destruct (split_char sep s).
Qed.

Lemma split_char_sep sep a b :
  split_char sep (a +:+ String sep b) = (split_char sep a ++ split_char sep b)%list.
Proof.
  induction a as [|c a IH].
  - rewrite app_empty_l. simpl. by rewrite Ascii.eqb_refl.
  - rewrite app_cons. simpl. rewrite IH.
    destruct (Ascii.eqb c sep); [done|].
    pose proof (split_char_not_nil sep a). by destruct (split_char sep a).
Qed.

Lemma split_char_free b : slash_free b = true → split_char slash b = [b].
Proof.
  induction b as [|c b IH]; [done|]. simpl.
  intros [Hc Hb]%andb_true_iff. apply negb_true_iff in Hc.
  by rewrite Hc, IH.
Qed.

Lemma endswith_inv a suf : endswith a suf = true → ∃ a0, a = a0 +:+ suf.
Proof.
  induction a as [|c a IH]; cbn [endswith].
  - rewrite orb_false_r. intros <-%String.eqb_eq. by exists "".
  - intros [<-%String.eqb_eq|H]%orb_true_iff; [by exists ""|].
    destruct (IH H) as [a0 ->]. by exists (String c a0).
Qed.

Lemma parse_path_sep a b :
  slash_free b = true → nonempty b = true →
  parse_path (a +:+ String slash b) = (parse_path a ++ [b])%list.
Proof.
  intros Hb Hne. unfold parse_path.
  rewrite split_char_sep, List.filter_app, (split_char_free b) by done.
  simpl. by rewrite Hne.
Qed.

Lemma parse_path_join a b :
  slash_free b = true → nonempty b = true →
  parse_path (path_join a b) = (parse_path a ++ [b])%list.
Proof.
  intros Hb Hne. unfold path_join.
  destruct b as [|c b]; [done|].
  pose proof Hb as Hb'. simpl in Hb'. apply andb_true_iff in Hb' as [Hc _].
  apply negb_true_iff in Hc. rewrite Hc.
  destruct a as [|c' a]; simpl negb; cbn [orb].
  - rewrite app_empty_l. unfold parse_path at 1.
    by rewrite (split_char_free (String c b)).
  - destruct (endswith (String c' a) "/") eqn:He.
    + apply endswith_inv in He as [a0 Ha]. rewrite Ha.
      rewrite app_assoc_s. change ("/" +:+ String c b) with (String slash (String c b)).
      rewrite parse_path_sep by done.
      change (a0 +:+ "/") with (a0 +:+ String slash "").
      unfold parse_path at 2. rewrite split_char_sep, List.filter_app.
      simpl. by rewrite app_nil_r.
    + change ("/" +:+ String c b) with (String slash (String c b)).
      by rewrite parse_path_sep.
Qed.

Lemma nonempty_app_r a b : nonempty b = true → nonempty (a +:+ b) = true.
Proof. destruct a; [done|]. by rewrite app_cons. Qed.

Lemma nonempty_path_join a b : nonempty b = true → nonempty (path_join a b) = true.
Proof.
  intros Hb. unfold path_join. destruct b as [|c b]; [done|].
  destruct (Ascii.eqb c slash); [done|].
  destruct (negb (nonempty a) || endswith a "/"); by repeat apply nonempty_app_r.
Qed.

Lemma safe_dirname_slash_free n : slash_free (safe_dirname n) = true.
Proof.
  pose proof (safe_dirname_stable n) as H. revert H. apply string_forall_impl.
  intros c Hc. apply negb_true_iff, allowed_not_slash. by apply stable_char_allowed.
Qed.

Lemma parse_folder out n :
  parse_path (path_join out (safe_dirname n)) = folder_of out n.
Proof.
  apply parse_path_join; auto using safe_dirname_slash_free, safe_dirname_nonempty.
Qed.

Lemma parse_in_folder out n file :
  slash_free file = true → nonempty file = true →
  parse_path (path_join (path_join out (safe_dirname n)) file)
  = (folder_of out n ++ [file])%list.
Proof. intros. by rewrite parse_path_join, parse_folder. Qed.

Lemma parent_snoc (q : path) x : parent (q ++ [x]) = q.
Proof. apply removelast_last. Qed.

Lemma node_at_snoc f (q : path) x : node_at f (q ++ [x]) = f !! (q ++ [x]).
Proof. unfold node_at. by destruct q. Qed.

(** ** Directories and files *)

Lemma makedirs_from_keeps f pre todo f' q x :
  makedirs_from f pre todo = Ok f' → f !! q = Some x → f' !! q = Some x.
Proof.
  revert f pre. induction todo as [|n todo IH]; intros f pre; simpl.
  - by intros [= ->].
  - destruct (f !! (pre ++ [n])) as [[|d]|] eqn:E; [eauto|done|].
    intros H Hq. eapply IH; [exact H|].
    rewrite lookup_insert_ne; [done|]. intros Heq. subst q. by rewrite E in Hq.
Qed.

Lemma makedirs_from_dir f pre todo f' :
  makedirs_from f pre todo = Ok f' → todo ≠ [] →
  f' !! (pre ++ todo) = Some Dir.
Proof.
  revert f pre. induction todo as [|n todo IH]; intros f pre; [done|].
  intros H _. simpl in H. rewrite (cons_middle n), app_assoc.
  destruct todo as [|m todo].
  - rewrite app_nil_r. simpl in H.
    destruct (f !! (pre ++ [n])) as [[|d]|] eqn:E; simplify_eq; [done|].
    apply lookup_insert_eq.
  - destruct (f !! (pre ++ [n])) as [[|d]|] eqn:E; [|done|]; by eapply IH.
Qed.

Lemma makedirs_from_frame f pre todo f' (q : path) :
  makedirs_from f pre todo = Ok f' →
  length (pre ++ todo) < length q → f' !! q = f !! q.
Proof.
  revert f pre. induction todo as [|n todo IH]; intros f pre; simpl.
  - by intros [= ->].
  - intros H Hlen.
    assert (length ((pre ++ [n]) ++ todo) < length q) as Hlen'.
    { by rewrite <- app_assoc. }
    destruct (f !! (pre ++ [n])) as [[|d]|] eqn:E; [eauto|done|].
    rewrite (IH _ _ H Hlen').
    apply lookup_insert_ne. intros Heq. subst q. rewrite length_app in Hlen'. lia.
Qed.

Lemma makedirs_from_dirs f pre todo f' :
  makedirs_from f pre todo = Ok f' → dirs_from f' pre todo = true.
Proof.
  revert f pre. induction todo as [|n todo IH]; intros f pre; [done|]. simpl.
  destruct (f !! (pre ++ [n])) as [[|d]|] eqn:E; [|done|]; intros H.
  - by rewrite (makedirs_from_keeps _ _ _ _ _ _ H E), (IH _ _ H).
  - assert (f' !! (pre ++ [n]) = Some Dir) as ->.
    { eapply makedirs_from_keeps; [exact H|]. apply lookup_insert_eq. }
    by apply (IH _ _ H).
Qed.

Lemma dirs_from_makedirs f pre todo :
  dirs_from f pre todo = true → makedirs_from f pre todo = Ok f.
Proof.
  revert pre. induction todo as [|n todo IH]; intros pre; [done|]. simpl.
  destruct (f !! (pre ++ [n])) as [[|d]|]; auto; done.
Qed.

Lemma dirs_from_makedirs_child f pre todo n :
  dirs_from f pre todo = true →
  not_file (f !! (pre ++ todo ++ [n])) = true →
  makedirs_from f pre (todo ++ [n]) = Ok (<[pre ++ todo ++ [n] := Dir]> f).
Proof.
  revert pre. induction todo as [|m todo IH]; intros pre; simpl.
  - intros _. destruct (f !! (pre ++ [n])) as [[|d]|] eqn:E; [|done|done].
    intros _. by rewrite insert_id.
  - destruct (f !! (pre ++ [m])) as [[|d]|] eqn:E; [|done|done].
    intros Hd Hn.
    assert (pre ++ m :: todo ++ [n] = (pre ++ [m]) ++ todo ++ [n]) as Heq
      by (by rewrite <- app_assoc).
    rewrite Heq in Hn |- *. by apply IH.
Qed.

Lemma dirs_from_insert_long f pre todo (q : path) x :
  length (pre ++ todo) < length q →
  dirs_from (<[q := x]> f) pre todo = dirs_from f pre todo.
Proof.
  revert pre. induction todo as [|n todo IH]; intros pre; [done|]. simpl.
  intros Hlen.
  assert (length ((pre ++ [n]) ++ todo) < length q) as Hlen'.
  { by rewrite <- app_assoc. }
  rewrite lookup_insert_ne.
  - destruct (f !! (pre ++ [n])) as [[|d]|]; auto.
  - intros Heq. subst q. rewrite length_app in Hlen'. lia.
Qed.

Lemma makedirs_run p w f' :
  nonempty p = true →
  makedirs_from (fs w) [] (parse_path p) = Ok f' →
  makedirs p w = (Ok tt, World f' (stdout w)).
Proof. unfold makedirs. by intros -> ->. Qed.

Lemma write_file_run p (q : path) x d w :
  nonempty p = true → parse_path p = (q ++ [x])%list →
  node_at (fs w) q = Some Dir →
  not_dir (fs w !! (q ++ [x])) = true →
  write_file p d w = (Ok tt, World (<[q ++ [x] := File d]> (fs w)) (stdout w)).
Proof.
  intros Hp Hq Hdir Hnd. unfold write_file.
  rewrite Hp, Hq, node_at_snoc, parent_snoc, Hdir.
  by destruct (fs w !! (q ++ [x])) as [[|?]|].
Qed.

(** ** The record materializer *)

Lemma bind_ok {A B} (m : M A) (k : A → M B) w a w' :
  m w = (Ok a, w') → bind m k w = k a w'.
Proof. unfold bind. by intros ->. Qed.

Lemma bind_raise {A B} (m : M A) (k : A → M B) w e w' :
  m w = (Raise e, w') → bind m k w = (Raise e, w').
Proof. unfold bind. by intros ->. Qed.

Lemma try_ok {A} (m : M A) h w a w' :
  m w = (Ok a, w') → try_except m h w = (Ok a, w').
Proof. unfold try_except. by intros ->. Qed.

Lemma try_caught {A} (m : M A) h w e w' :
  m w = (Raise e, w') → is_Exception e = true → try_except m h w = h e w'.
Proof. unfold try_except. by intros -> ->. Qed.

Lemma schema_name_is d n :
  dict_get d "name" (PStr "Untitled") = PStr n →
  dict_get (schema_of_dict d) "name" (PStr "Untitled") = PStr n.
Proof. intros H. unfold dict_get at 1. by rewrite schema_name. Qed.

Lemma b64decode_raises v e : Base64.b64decode v = Raise e → is_Exception e = true.
Proof.
  assert (∀ s qp lc pads out, Base64.a2b_loop s qp lc pads out = Raise e →
                              is_Exception e = true) as Hloop.
  { induction s as [|c s IH]; intros qp lc pads out; simpl.
    - destruct (qp =? 0)%nat; [done|]. by intros [= <-].
    - destruct (Ascii.eqb c "=").
      { destruct qp as [|[|qp]]; [apply IH..|].
        destruct (S (S qp) + S pads)%nat as [|[|[|[|]]]]; (done || apply IH). }
      destruct (Base64.value c); [|apply IH].
      destruct qp as [|[|[|]]]; apply IH. }
  destruct v; simpl; try by intros [= <-].
  destruct (string_forall _ _); [apply Hloop|by intros [= <-]].
Qed.

Lemma process_recipe_data_run d n out src w f1 :
  dict_get d "name" (PStr "Untitled") = PStr n →
  makedirs_from (fs w) [] (folder_of out n) = Ok f1 →
  not_dir (fs w !! (folder_of out n ++ ["full.jpg"])) = true →
  not_dir (fs w !! (folder_of out n ++ ["recipe.json"])) = true →
  process_recipe_data (PDict d) out src w
  = (Ok tt, World (record_files d n out f1)
              (stdout w ++ record_messages d n out src)).
Proof.
  intros Hn Hmk Himg Hjson. unfold process_recipe_data.
  unfold bind at 1, lift at 1. cbn [paprika_to_schemaorg].
  rewrite (schema_name_is _ _ Hn).
  unfold bind at 1, lift at 1. cbn [safe_dirname_dyn].
  assert (folder_of out n ≠ []) as Hne by (unfold folder_of; by destruct (parse_path out)).
  pose proof (makedirs_from_dir _ _ _ _ Hmk Hne) as Hdir. simpl in Hdir.
  assert (∀ x, f1 !! (folder_of out n ++ [x]) = fs w !! (folder_of out n ++ [x])) as Hframe.
  { intros x. apply (makedirs_from_frame _ _ _ _ _ Hmk). simpl. rewrite length_app. simpl. lia. }
  erewrite bind_ok; cycle 1.
  { apply makedirs_run; [apply nonempty_path_join, safe_dirname_nonempty|].
    rewrite parse_folder. exact Hmk. }
  unfold bind at 1, lift at 1. cbn [get_dyn].
  unfold record_files, record_messages, written_schema, photo_outcome.
  destruct (truthy (dict_get d "photo_data" PNone)).
  - destruct (Base64.b64decode (dict_get d "photo_data" PNone)) as [raw|e] eqn:Hdec.
    + erewrite bind_ok; cycle 1.
      { apply try_ok. erewrite bind_ok; [|reflexivity].
        erewrite bind_ok; [reflexivity|].
        apply (write_file_run _ (folder_of out n) "full.jpg").
        - by apply nonempty_path_join.
        - by apply parse_in_folder.
        - unfold node_at. simpl. rewrite Hdir. by destruct (folder_of out n).
        - simpl. by rewrite Hframe. }
      apply try_ok. erewrite bind_ok; cycle 1.
      { apply (write_file_run _ (folder_of out n) "recipe.json").
        - by apply nonempty_path_join.
        - by apply parse_in_folder.
        - unfold node_at. simpl.
          rewrite lookup_insert_ne, Hdir; [by destruct (folder_of out n)|].
          intros Heq. apply (f_equal length) in Heq.
          rewrite length_app in Heq. simpl in Heq. lia.
        - simpl. rewrite lookup_insert_ne, Hframe; [done|].
          intros Heq. by apply app_inv_head in Heq. }
      reflexivity.
    + erewrite bind_ok; cycle 1.
      { erewrite try_caught; [reflexivity| |by eapply b64decode_raises].
        erewrite bind_raise; reflexivity. }
      apply try_ok. erewrite bind_ok; cycle 1.
      { apply (write_file_run _ (folder_of out n) "recipe.json").
        - by apply nonempty_path_join.
        - by apply parse_in_folder.
        - unfold node_at. simpl. rewrite Hdir. by destruct (folder_of out n).
        - simpl. by rewrite Hframe. }
      unfold print. simpl. by rewrite <- app_assoc.
  - unfold ret at 1. unfold bind at 1.
    apply try_ok. erewrite bind_ok; cycle 1.
    { apply (write_file_run _ (folder_of out n) "recipe.json").
      - by apply nonempty_path_join.
      - by apply parse_in_folder.
      - unfold node_at. simpl. rewrite Hdir. by destruct (folder_of out n).
      - simpl. by rewrite Hframe. }
    reflexivity.
Qed.

Lemma writable_inv f out n :
  writable f out n = true →
  ∃ f1, makedirs_from f [] (folder_of out n) = Ok f1
        ∧ not_dir (f !! (folder_of out n ++ ["full.jpg"])) = true
        ∧ not_dir (f !! (folder_of out n ++ ["recipe.json"])) = true.
Proof.
  unfold writable. cbv zeta.
  intros [[Hmk Himg]%andb_true_iff Hjson]%andb_true_iff.
  destruct (makedirs_from f [] (folder_of out n)) as [f1|] eqn:E; [|done].
  by exists f1.
Qed.

Lemma writable_run d n out src w :
  dict_get d "name" (PStr "Untitled") = PStr n →
  writable (fs w) out n = true →
  ∃ f1, makedirs_from (fs w) [] (folder_of out n) = Ok f1
        ∧ process_recipe_data (PDict d) out src w
          = (Ok tt, World (record_files d n out f1)
                      (stdout w ++ record_messages d n out src)).
Proof.
  intros Hn (f1 & Hmk & Himg & Hjson)%writable_inv.
  exists f1. split; [done|]. by apply process_recipe_data_run.
Qed.


Lemma record_files_json d n out f1 :
  record_files d n out f1 !! (folder_of out n ++ ["recipe.json"])
  = Some (File (JsonText (PDict (written_schema d)))).
Proof. unfold record_files. cbv zeta. apply lookup_insert_eq. Qed.

Lemma record_files_image d n out f1 :
  record_files d n out f1 !! (folder_of out n ++ ["full.jpg"])
  = match photo_outcome d with
    | Some (Ok raw) => Some (File (Raw raw))
    | _ => f1 !! (folder_of out n ++ ["full.jpg"])
    end.
Proof.
  unfold record_files. cbv zeta.
  rewrite lookup_insert_ne by (intros H; by apply app_inv_head in H).
  destruct (photo_outcome d) as [[raw|e]|]; try done. apply lookup_insert_eq.
Qed.

(** C6, as stated, fails on photo data that is not base64 and still
    decodes: [b64decode] skips the characters outside the alphabet, so
    [!!!!] decodes to no bytes; [full.jpg] is created, empty, the image
    field becomes [full.jpg], and no error is printed. *)
Lemma invalid_base64_is_decoded :
  let r := process_recipe_data (PDict (Sample.with_photo "!!!!")) "out" ""
             Sample.start in
  Spec.is_base64 "!!!!" = false
  ∧ r.1 = Ok tt
  ∧ fs r.2 !! ["out"; "tea"; "full.jpg"] = Some (File (Raw []))
  ∧ fs r.2 !! ["out"; "tea"; "recipe.json"]
    = Some (File (JsonText (PDict (<["image" := PStr "full.jpg"]>
                                     (schema_of_dict (Sample.with_photo "!!!!"))))))
  ∧ error_count (stdout r.2) = 0%nat.
Proof. cbv zeta. repeat apply conj; vm_compute; reflexivity. Qed.

(** C6, amended. For a record with a string name, in a file system where
    the recipe's folder can be made and its two file names are free, and
    with a [photo_data] that [if photo_data:] lets through: the record is
    always processed to the end. When [b64decode] returns bytes, exactly
    those bytes are in [full.jpg], the document in [recipe.json] has the
    image [full.jpg], and no error is printed. When [b64decode] raises (bad
    padding or length, text that is not ASCII, a value that is not a
    string), the error is printed with the recipe's name, [full.jpg] is as
    it was before, and [recipe.json] holds the mapper's record, whose image
    is the source's [image_url] or the empty string. *)
Theorem photo_materialization d n out src w photo :
  dict_get d "name" (PStr "Untitled") = PStr n →
  writable (fs w) out n = true →
  dict_get d "photo_data" PNone = photo →
  truthy photo = true →
  ∃ w', process_recipe_data (PDict d) out src w = (Ok tt, w')
    ∧ (∀ raw, Base64.b64decode photo = Ok raw →
         fs w' !! (folder_of out n ++ ["full.jpg"]) = Some (File (Raw raw))
         ∧ fs w' !! (folder_of out n ++ ["recipe.json"])
           = Some (File (JsonText (PDict (<["image" := PStr "full.jpg"]>
                                            (schema_of_dict d)))))
         ∧ error_count (stdout w') = error_count (stdout w))
    ∧ (∀ e, Base64.b64decode photo = Raise e →
         (∃ label path, stdout w' = stdout w ++ [MsgPhotoError (PStr n) e;
                                                 MsgConverted label path])
         ∧ fs w' !! (folder_of out n ++ ["full.jpg"])
           = fs w !! (folder_of out n ++ ["full.jpg"])
         ∧ fs w' !! (folder_of out n ++ ["recipe.json"])
           = Some (File (JsonText (PDict (schema_of_dict d))))
         ∧ schema_of_dict d !! "image"
           = Some (dict_get d "image_url" (PStr ""))).
Proof.
  intros Hn Hw Hphoto Htruthy.
  destruct (writable_run d n out src w Hn Hw) as (f1 & Hmk & Hrun).
  eexists. split; [exact Hrun|]. cbn [fs stdout].
  rewrite record_files_json, record_files_image.
  unfold written_schema, record_messages, photo_outcome.
  rewrite Hphoto, Htruthy. split.
  - intros raw ->. repeat split; try done.
    unfold error_count. rewrite List.filter_app. simpl. by rewrite app_nil_r.
  - intros e ->. repeat split; try done; [by eexists _, _|].
    apply (makedirs_from_frame _ _ _ _ _ Hmk). simpl. rewrite length_app. simpl. lia.
Qed.

(** The theorem at a sample record whose photo is the base64 of [hi]. *)
Lemma photo_materialization_witness :
  ∃ w', process_recipe_data (PDict (Sample.with_photo "aGk=")) "out" "" Sample.start
        = (Ok tt, w')
        ∧ fs w' !! ["out"; "tea"; "full.jpg"] = Some (File (Raw ["h"; "i"]%byte)).
Proof.
  destruct (photo_materialization (Sample.with_photo "aGk=") "Tea" "out" ""
              Sample.start (PStr "aGk="))
    as (w' & Hrun & Hok & _); [vm_compute; reflexivity..|].
  exists w'. split; [exact Hrun|].
  destruct (Hok ["h"; "i"]%byte) as [H _]; [vm_compute; reflexivity|exact H].
Defined.

(** ** Collisions *)

Lemma length_snoc (q : path) x : length (q ++ [x]) = S (length q).
Proof. rewrite length_app. simpl. lia. Qed.

Lemma record_files_dirs d n out f1 pre todo :
  length (pre ++ todo) ≤ length (folder_of out n) →
  dirs_from (record_files d n out f1) pre todo = dirs_from f1 pre todo.
Proof.
  intros Hlen. unfold record_files. cbv zeta.
  rewrite dirs_from_insert_long by (rewrite length_snoc; lia).
  destruct (photo_outcome d) as [[raw|e]|]; try done.
  apply dirs_from_insert_long. rewrite length_snoc. lia.
Qed.

Lemma record_files_not_dir d n out f1 x :
  not_dir (f1 !! (folder_of out n ++ [x])) = true →
  not_dir (record_files d n out f1 !! (folder_of out n ++ [x])) = true.
Proof.
  intros H. unfold record_files. cbv zeta.
  destruct (decide (folder_of out n ++ ["recipe.json"] = folder_of out n ++ [x])) as [<-|Hne].
  { by rewrite lookup_insert_eq. }
  rewrite lookup_insert_ne by done.
  destruct (photo_outcome d) as [[raw|e]|]; try done.
  destruct (decide (folder_of out n ++ ["full.jpg"] = folder_of out n ++ [x])) as [<-|Hne'].
  { by rewrite lookup_insert_eq. }
  by rewrite lookup_insert_ne.
Qed.

Lemma writable_again d n out f f1 :
  makedirs_from f [] (folder_of out n) = Ok f1 →
  not_dir (f !! (folder_of out n ++ ["full.jpg"])) = true →
  not_dir (f !! (folder_of out n ++ ["recipe.json"])) = true →
  makedirs_from (record_files d n out f1) [] (folder_of out n)
  = Ok (record_files d n out f1)
  ∧ writable (record_files d n out f1) out n = true.
Proof.
  intros Hmk Himg Hjson.
  assert (∀ x, f1 !! (folder_of out n ++ [x]) = f !! (folder_of out n ++ [x])) as Hframe.
  { intros x. apply (makedirs_from_frame _ _ _ _ _ Hmk). simpl. rewrite length_app. simpl. lia. }
  assert (makedirs_from (record_files d n out f1) [] (folder_of out n)
          = Ok (record_files d n out f1)) as Hmk'.
  { apply dirs_from_makedirs. rewrite record_files_dirs by done.
    by apply (makedirs_from_dirs f). }
  split; [done|]. unfold writable. cbv zeta. rewrite Hmk'.
  rewrite !record_files_not_dir; by rewrite ?Hframe.
Qed.



(** ** What can escape a computation *)

Lemma roe_ret {A} (a : A) : raises_only_exceptions (ret a).
Proof. by intros w e w'. Qed.

Lemma roe_lift {A} (r : res A) :
  (∀ e, r = Raise e → is_Exception e = true) → raises_only_exceptions (lift r).
Proof. intros H w e w' [= -> _]. by apply H. Qed.

Lemma roe_bind {A B} (m : M A) (k : A → M B) :
  raises_only_exceptions m → (∀ a, raises_only_exceptions (k a)) →
  raises_only_exceptions (bind m k).
Proof.
  intros Hm Hk w e w'. unfold bind.
  destruct (m w) as [[a|e1] w1] eqn:E.
  - apply Hk.
  - intros [= <- <-]. by eapply Hm.
Qed.

Lemma roe_try {A} (m : M A) (h : exn → M A) :
  raises_only_exceptions m → (∀ e, raises_only_exceptions (h e)) →
  raises_only_exceptions (try_except m h).
Proof.
  intros Hm Hh w e w'. unfold try_except.
  destruct (m w) as [[a|e1] w1] eqn:E; [done|].
  rewrite (Hm _ _ _ E). apply Hh.
Qed.

Lemma roe_print m : raises_only_exceptions (print m).
Proof. by intros w e w'. Qed.

Lemma roe_makedirs p : raises_only_exceptions (makedirs p).
Proof.
  intros w e w'. unfold makedirs.
  destruct (nonempty p); [|by intros [= <- _]].
  destruct (makedirs_from _ _ _) as [f|e1] eqn:E; [done|]. intros [= <- _].
  revert E. generalize (@nil string) (fs w). clear.
  induction (parse_path p) as [|n todo IH]; intros pre f; [done|]. simpl.
  destruct (f !! (pre ++ [n])) as [[|d]|]; eauto.
  intros [= <-]. by destruct todo.
Qed.

Lemma roe_write_file p d : raises_only_exceptions (write_file p d).
Proof.
  intros w e w'. unfold write_file.
  repeat case_match; by intros [= <- _].
Qed.

Lemma roe_read_file p : raises_only_exceptions (read_file p).
Proof.
  intros w e w'. unfold read_file. repeat case_match; by intros [= <- _].
Qed.

Lemma nr_ret : never_raises (ret tt).
Proof. intros w. by exists w. Qed.

Lemma nr_print m : never_raises (print m).
Proof. intros w. by eexists. Qed.

Lemma nr_try (m : M unit) h :
  raises_only_exceptions m → (∀ e, never_raises (h e)) →
  never_raises (try_except m h).
Proof.
  intros Hm Hh w. unfold try_except.
  destruct (m w) as [[[]|e] w1] eqn:E; [by exists w1|].
  rewrite (Hm _ _ _ E). apply Hh.
Qed.

Lemma nr_for_each {A} (l : list A) body :
  (∀ x, never_raises (body x)) → never_raises (for_each l body).
Proof.
  intros Hb. induction l as [|x l IH]; intros w; [by exists w|]. simpl.
  destruct (Hb x w) as [w1 H1]. unfold bind. rewrite H1. apply IH.
Qed.

Lemma nr_roe (m : M unit) : never_raises m → raises_only_exceptions m.
Proof. intros H w e w' E. destruct (H w) as [w1 H1]. congruence. Qed.

Lemma roe_process_recipe_data v out src :
  raises_only_exceptions (process_recipe_data v out src).
Proof.
  unfold process_recipe_data.
  apply roe_bind; [apply roe_lift; intros e; by destruct v; intros [= <-]|intros sch].
  apply roe_bind.
  { apply roe_lift. intros e. by destruct (dict_get sch _ _); intros [= <-]. }
  intros folder.
  apply roe_bind; [apply roe_makedirs|intros _].
  apply roe_bind; [apply roe_lift; intros e; by destruct v; intros [= <-]|intros photo].
  apply roe_bind.
  - destruct (truthy photo); [|apply roe_ret].
    apply roe_try; [|intros e; apply roe_bind; [apply roe_print|intros; apply roe_ret]].
    apply roe_bind; [apply roe_lift, b64decode_raises|intros raw].
    apply roe_bind; [apply roe_write_file|intros; apply roe_ret].
  - intros sch'. apply roe_try; [|intros; apply roe_print].
    apply roe_bind; [apply roe_write_file|intros; apply roe_print].
Qed.

Lemma zip_read_raises zf m e : zip_read zf m = Raise e → e = KeyError.
Proof.
  revert e. induction zf as [|[n c] zf IH]; simpl; [by intros ? [= <-]|].
  intros e. destruct (zip_read zf m); [done|].
  destruct (String.eqb n m); [done|]. intros [= <-]. by apply IH.
Qed.

Lemma gzip_decompress_raises c e : gzip_decompress c = Raise e → is_Exception e = true.
Proof. destruct c; simpl; by intros [= <-]. Qed.

Lemma json_loads_raises c e : json_loads c = Raise e → is_Exception e = true.
Proof. destruct c; simpl; by intros [= <-]. Qed.


(** The [try] block of the loop over the members, in terms of
    [member_record]. *)
Lemma process_member_selected zf zip out m w :
  endswith (lower m) ".paprikarecipe" = true →
  process_member zf zip out m w
  = try_except
      (bind (lift (member_record zf m)) (λ v, process_recipe_data v out m))
      (λ e, print (MsgMemberError m zip e)) w.
Proof.
  intros Hsel. unfold process_member. rewrite Hsel.
  unfold try_except, member_record, bind, lift.
  destruct (zip_read zf m) as [c|]; [|done].
  destruct (gzip_decompress c) as [t|]; [|done].
  by destruct (json_loads t).
Qed.

Lemma nr_process_member zf zip out m : never_raises (process_member zf zip out m).
Proof.
  unfold process_member. destruct (endswith _ _); [|apply nr_ret].
  apply nr_try; [|intros; apply nr_print].
  apply roe_bind; [apply roe_lift|intros c].
  { intros e H. by rewrite (zip_read_raises _ _ _ H). }
  apply roe_bind; [apply roe_lift, gzip_decompress_raises|intros t].
  apply roe_bind; [apply roe_lift, json_loads_raises|intros v].
  apply roe_process_recipe_data.
Qed.





Lemma roe_ZipFile p : raises_only_exceptions (ZipFile p).
Proof.
  unfold ZipFile. apply roe_bind; [apply roe_read_file|].
  intros []; (apply roe_ret || by intros w e w' [= <- _]).
Qed.

Lemma nr_process_bulk_export zip out : never_raises (process_bulk_export zip out).
Proof.
  unfold process_bulk_export. apply nr_try; [|intros; apply nr_print].
  apply roe_bind; [apply roe_ZipFile|intros zf].
  apply nr_roe, nr_for_each. intros m. apply nr_process_member.
Qed.

Lemma process_bulk_export_opened zip out w zf :
  ZipFile zip w = (Ok zf, w) →
  process_bulk_export zip out w
  = for_each (namelist zf) (process_member zf zip out) w.
Proof.
  intros Hopen. unfold process_bulk_export.
  destruct (nr_for_each (namelist zf) (process_member zf zip out)
              (nr_process_member zf zip out) w) as [w' Hw'].
  rewrite Hw'. apply try_ok. unfold bind. by rewrite Hopen.
Qed.


(** ** Two good members and a corrupt one *)

Lemma ready_inv f out n :
  ready f out n = true →
  dirs_from f [] (parse_path out) = true
  ∧ not_file (f !! folder_of out n) = true
  ∧ not_dir (f !! (folder_of out n ++ ["full.jpg"])) = true
  ∧ not_dir (f !! (folder_of out n ++ ["recipe.json"])) = true.
Proof.
  unfold ready. cbv zeta.
  by intros [[[? ?]%andb_true_iff ?]%andb_true_iff ?]%andb_true_iff.
Qed.

Lemma ready_makedirs f out n :
  ready f out n = true →
  makedirs_from f [] (folder_of out n) = Ok (<[folder_of out n := Dir]> f).
Proof.
  intros (Hd & Hf & _)%ready_inv. unfold folder_of in *.
  by apply (dirs_from_makedirs_child f []).
Qed.

Lemma ready_writable f out n : ready f out n = true → writable f out n = true.
Proof.
  intros H. pose proof (ready_makedirs _ _ _ H) as Hmk.
  apply ready_inv in H as (_ & _ & Himg & Hjson).
  unfold writable. cbv zeta. by rewrite Hmk, Himg, Hjson.
Qed.














(** ** The entry point *)

Lemma nr_process_paprikarecipe_file p out :
  never_raises (process_paprikarecipe_file p out).
Proof.
  unfold process_paprikarecipe_file. apply nr_try; [|intros; apply nr_print].
  apply roe_bind; [|intros; apply roe_process_recipe_data].
  apply roe_bind; [apply roe_read_file|intros c].
  apply roe_bind; [apply roe_lift, gzip_decompress_raises|intros t].
  apply roe_lift, json_loads_raises.
Qed.


Lemma makedirs_creates p w w1 :
  makedirs p w = (Ok tt, w1) → stat (fs w1) p = Some Dir.
Proof.
  unfold makedirs, stat. destruct (nonempty p); [|done].
  destruct (makedirs_from _ _ _) as [f|] eqn:E; [|done]. intros [= <-]. simpl.
  unfold node_at. destruct (parse_path p) as [|n q] eqn:Hq; [done|].
  by apply (makedirs_from_dir _ [] _ _ E).
Qed.

Lemma main_short argv w :
  length argv < 3 →
  main argv w = (Raise (SystemExit 1), World (fs w) (stdout w ++ [MsgUsage])).
Proof.
  intros H. unfold main.
  by assert ((length argv <? 3)%nat = true) as -> by (by apply Nat.ltb_lt).
Qed.

Lemma main_long argv w :
  3 ≤ length argv →
  main argv w
  = bind (makedirs (argv_at argv 2)) (λ _,
      bind (isdir (argv_at argv 1)) (λ is_dir,
        bind (if is_dir then
                bind (listdir (argv_at argv 1)) (λ names,
                  for_each names (λ fname,
                    bind (isfile (path_join (argv_at argv 1) fname)) (λ is_file,
                      if is_file && endswith (lower fname) ".paprikarecipe"
                      then process_paprikarecipe_file
                             (path_join (argv_at argv 1) fname) (argv_at argv 2)
                      else ret tt)))
              else
                bind (isfile (argv_at argv 1)) (λ is_file,
                  if is_file then
                    if endswith (lower (argv_at argv 1)) ".paprikarecipes"
                    then process_bulk_export (argv_at argv 1) (argv_at argv 2)
                    else if endswith (lower (argv_at argv 1)) ".paprikarecipe"
                    then process_paprikarecipe_file (argv_at argv 1) (argv_at argv 2)
                    else print (MsgUnrecognized (argv_at argv 1))
                  else bind (print (MsgNeither (argv_at argv 1)))
                         (λ _, raise (SystemExit 1))))
          (λ _, print (MsgDone (argv_at argv 2))))) w.
Proof.
  intros H. unfold main.
  by assert ((length argv <? 3)%nat = false) as -> by (apply Nat.ltb_ge; lia).
Qed.

Lemma main_valid argv w w1 :
  3 ≤ length argv →
  makedirs (argv_at argv 2) w = (Ok tt, w1) →
  stat (fs w1) (argv_at argv 1) ≠ None →
  ∃ w', main argv w = (Ok tt, w').
Proof.
  intros Hlen Hmk Hstat. rewrite main_long by done.
  rewrite (bind_ok _ _ _ _ _ Hmk). unfold bind at 1, isdir at 1.
  destruct (stat (fs w1) (argv_at argv 1)) as [[|c]|] eqn:E; [| |done].
  - unfold bind at 1. unfold bind at 1, listdir at 1.
    match goal with |- context [for_each ?l ?b w1] =>
      destruct (nr_for_each l b) with (w := w1) as [w2 H2] end.
    { intros fname w0. unfold bind, isfile.
      destruct (_ && _); [apply nr_process_paprikarecipe_file|apply nr_ret]. }
    rewrite H2. by eexists.
  - unfold bind at 1. unfold bind at 1, isfile at 1. rewrite E.
    match goal with |- context [match ?m w1 with _ => _ end] =>
      assert (never_raises m) as Hnr end.
    { repeat case_match; auto using nr_process_bulk_export,
        nr_process_paprikarecipe_file, nr_print. }
    destruct (Hnr w1) as [w2 ->]. by eexists.
Qed.





(** * Further properties *)

(** ** The name sanitizer *)

Lemma isspace_lower c : isspace (lower_char c) = isspace c.
Proof. by_cases_on_char c. Qed.

Lemma allowed_not_dot c : Spec.allowed c = true → Ascii.eqb c "." = false.
Proof. by_cases_on_char c. Qed.

Lemma lower_idem s : lower (lower s) = lower s.
Proof. induction s as [|c s IH]; [done|]. simpl. by rewrite lower_char_idem, IH. Qed.

Lemma lstrip_lower s : lstrip (lower s) = lower (lstrip s).
Proof.
  induction s as [|c s IH]; [done|]. simpl. rewrite isspace_lower.
  by destruct (isspace c).
Qed.

Lemma rstrip_lower s : rstrip (lower s) = lower (rstrip s).
Proof.
  induction s as [|c s IH]; [done|]. simpl. rewrite IH, isspace_lower.
  destruct (rstrip s); simpl; [by destruct (isspace c)|done].
Qed.

Lemma strip_lower s : strip (lower s) = lower (strip s).
Proof. unfold strip. by rewrite lstrip_lower, rstrip_lower. Qed.

Lemma forall_app p s t :
  string_forall p s = true → string_forall p t = true →
  string_forall p (s +:+ t) = true.
Proof.
  intros Hs Ht. induction s as [|c s IH]; [done|].
  rewrite app_cons. simpl in *. apply andb_true_iff in Hs as [-> Hs]. auto.
Qed.

Lemma strip_padding l s r :
  string_forall isspace l = true → string_forall isspace r = true →
  strip (l +:+ s +:+ r) = strip s.
Proof.
  intros Hl Hr. symmetry. apply trimmed_unique.
  destruct (strip_trimmed s) as (l' & r' & Hs & Hl' & Hr' & Hst & Hen).
  exists (l +:+ l'), (r' +:+ r). repeat split; auto using forall_app.
  rewrite Hs at 1. by rewrite !app_assoc_s.
Qed.

(** X1. The strings that [safe_dirname] maps to themselves are exactly the
    non-empty strings made of characters that are alphanumeric, underscore
    or hyphen and that lowercasing leaves alone; and these are exactly the
    folder names the function can produce. *)
Theorem safe_dirname_fixed_points (r : string) :
  (safe_dirname r = r
   ↔ nonempty r = true ∧ string_forall Spec.stable_char r = true)
  ∧ ((∃ s, safe_dirname s = r) ↔ safe_dirname r = r).
Proof.
  assert (safe_dirname r = r
          ↔ nonempty r = true ∧ string_forall Spec.stable_char r = true) as Hfix.
  { split.
    - intros <-. split; [apply safe_dirname_nonempty|apply safe_dirname_stable].
    - intros [Hne Hst]. by apply stable_fixed. }
  split; [exact Hfix|]. split.
  - intros [s <-]. apply stable_fixed;
      [apply safe_dirname_stable|apply safe_dirname_nonempty].
  - intros H. by exists r.
Qed.

(** X2. Whitespace around a name and the case of its letters do not change
    the folder name. *)
Theorem safe_dirname_ignores_case_and_padding (l s r : string) :
  string_forall isspace l = true →
  string_forall isspace r = true →
  safe_dirname (l +:+ s +:+ r) = safe_dirname s
  ∧ safe_dirname (lower s) = safe_dirname s
  ∧ safe_dirname (l +:+ lower s +:+ r) = safe_dirname s.
Proof.
  intros Hl Hr.
  assert (safe_dirname (lower s) = safe_dirname s) as Hlow.
  { unfold safe_dirname. by rewrite strip_lower, lower_idem. }
  assert (∀ t, safe_dirname (l +:+ t +:+ r) = safe_dirname t) as Hpad.
  { intros t. unfold safe_dirname. by rewrite strip_padding. }
  split; [apply Hpad|]. split; [exact Hlow|]. by rewrite Hpad.
Qed.

Lemma safe_dirname_ignores_case_and_padding_witness :
  safe_dirname "  Iced Tea " = safe_dirname "Iced Tea"
  ∧ safe_dirname "iced tea" = safe_dirname "Iced Tea".
Proof.
  destruct (safe_dirname_ignores_case_and_padding "  " "Iced Tea" " ")
    as (Hpad & Hlow & _); [reflexivity..|].
  split; [exact Hpad|exact Hlow].
Defined.

Lemma sub_plus_no_space_forall (p : ascii → bool) s :
  string_forall (λ c, negb (isspace c) && p c) s = true →
  re_sub_class_plus isspace "_" s = s.
Proof.
  intros H. apply no_space_sub_plus. revert H. apply string_forall_impl.
  by intros c [? _]%andb_true_iff.
Qed.

Lemma filter_none p s :
  string_forall (λ c, negb (p c)) s = true → string_filter p s = "".
Proof.
  induction s as [|c s IH]; [done|]. simpl.
  intros [Hc Hs]%andb_true_iff. apply negb_true_iff in Hc. by rewrite Hc, IH.
Qed.

Lemma lower_forall (p : ascii → bool) s :
  string_forall (λ c, p (lower_char c)) s = true → string_forall p (lower s) = true.
Proof.
  induction s as [|c s IH]; [done|]. simpl.
  intros [-> Hs]%andb_true_iff. auto.
Qed.

(** X3. A name that, once trimmed, has no whitespace and no character that
    lowercases to an alphanumeric, an underscore or a hyphen gets the folder
    name [unnamed_recipe]; so does every name of whitespace only. *)
Theorem safe_dirname_fallback (s : string) :
  string_forall (λ c, negb (isspace c) && negb (Spec.allowed (lower_char c)))
    (strip s) = true →
  safe_dirname s = "unnamed_recipe".
Proof.
  intros H. rewrite safe_dirname_unfold. cbv zeta.
  assert (string_forall (λ c, negb (isspace c) && negb (Spec.allowed c))
            (lower (strip s)) = true) as Hlow.
  { apply lower_forall. revert H. apply string_forall_impl.
    intros c. by rewrite isspace_lower. }
  rewrite (sub_plus_no_space_forall _ _ Hlow).
  rewrite filter_none; [done|]. revert Hlow. apply string_forall_impl.
  by intros c [_ ?]%andb_true_iff.
Qed.

Lemma safe_dirname_fallback_witness :
  safe_dirname "  (!?)  " = "unnamed_recipe".
Proof. apply safe_dirname_fallback. vm_compute. reflexivity. Defined.

(** X4. Whatever the recipe's name, the folder name has no path separator
    and no dot, so it is neither [.] nor [..], and the recipe's folder is a
    direct child of the output directory. *)
Theorem recipe_folder_is_child (out n : string) :
  parse_path (path_join out (safe_dirname n)) = parse_path out ++ [safe_dirname n]
  ∧ slash_free (safe_dirname n) = true
  ∧ string_forall (λ c, negb (Ascii.eqb c ".")) (safe_dirname n) = true
  ∧ safe_dirname n ≠ "." ∧ safe_dirname n ≠ "..".
Proof.
  assert (string_forall (λ c, negb (Ascii.eqb c ".")) (safe_dirname n) = true) as Hdot.
  { pose proof (safe_dirname_stable n) as H. revert H. apply string_forall_impl.
    intros c Hc. apply negb_true_iff, allowed_not_dot. by apply stable_char_allowed. }
  split; [apply parse_folder|]. split; [apply safe_dirname_slash_free|].
  split; [exact Hdot|].
  split; intros E; rewrite E in Hdot; discriminate Hdot.
Qed.

(** ** The record mapper *)

Ltac in_list := repeat first [apply list_elem_of_here | apply list_elem_of_further].

Lemma schema_depends_on_source_keys d d' :
  (∀ key, key ∈ source_keys → d' !! key = d !! key) →
  schema_of_dict d' = schema_of_dict d.
Proof.
  intros H. unfold schema_of_dict, aggregate_rating, lines_field, dict_get.
  by rewrite !H by (unfold source_keys; in_list).
Qed.

(** X5. A key that the mapper does not read has no influence on the Target
    Record: adding it to a Source Record, with any value, or removing it
    gives the same record. *)
Theorem mapper_ignores_other_keys (d : gmap string pyval) k v :
  k ∉ source_keys →
  schema_of_dict (<[k := v]> d) = schema_of_dict d
  ∧ schema_of_dict (delete k d) = schema_of_dict d.
Proof.
  intros Hk. split; apply schema_depends_on_source_keys; intros key Hkey.
  - apply lookup_insert_ne. by intros ->.
  - apply lookup_delete_ne. by intros ->.
Qed.

Lemma mapper_ignores_other_keys_witness :
  schema_of_dict (<["photo_data" := PStr "aGk="]> Sample.tea)
  = schema_of_dict Sample.tea.
Proof.
  apply (mapper_ignores_other_keys Sample.tea "photo_data" (PStr "aGk=")).
  apply (bool_decide_unpack _). vm_compute. exact I.
Defined.

(** X6. A field that is present in the Source Record is copied to its
    field of the Target Record as it is, whatever its type: the name, the
    eleven other string-valued fields, the categories, and the rating as
    the rating value. *)
Theorem mapper_copies_present_fields (d : gmap string pyval) :
  (∀ src tgt v,
     (src, tgt) ∈ Spec.string_fields ++ [("categories", "category")] →
     d !! src = Some v → schema_of_dict d !! tgt = Some v)
  ∧ (∀ v, d !! "rating" = Some v →
          ∃ agg, schema_of_dict d !! "aggregateRating" = Some (PDict agg)
                 ∧ agg !! "ratingValue" = Some v).
Proof.
  split.
  - intros src tgt v Hin Hsrc. unfold Spec.string_fields in Hin. simpl in Hin.
    each_field Hin; schema_lookup; unfold dict_get; by rewrite Hsrc.
  - intros v Hv. exists (aggregate_rating d). split; [apply schema_rating|].
    schema_lookup. unfold dict_get. by rewrite Hv.
Qed.

Lemma strip_idem s : strip (strip s) = strip s.
Proof.
  symmetry. apply trimmed_unique. exists "", "". unfold strip.
  rewrite app_empty_l, app_empty_r.
  repeat split; auto using rstrip_ends_clean, rstrip_starts_clean, lstrip_starts_clean.
Qed.

Lemma lstrip_forall p s : string_forall p s = true → string_forall p (lstrip s) = true.
Proof.
  induction s as [|c s IH]; [done|]. simpl.
  intros [Hc Hs]%andb_true_iff. destruct (isspace c); [auto|]. simpl. by rewrite Hc.
Qed.

Lemma rstrip_forall p s : string_forall p s = true → string_forall p (rstrip s) = true.
Proof.
  induction s as [|c s IH]; [done|]. simpl.
  intros [Hc Hs]%andb_true_iff. specialize (IH Hs).
  destruct (rstrip s); [destruct (isspace c)|]; simpl in *; by rewrite ?Hc.
Qed.

Lemma strip_forall p s : string_forall p s = true → string_forall p (strip s) = true.
Proof. intros H. unfold strip. by apply rstrip_forall, lstrip_forall. Qed.

Lemma split_char_pieces sep s :
  Forall (λ w, string_forall (λ c, negb (Ascii.eqb c sep)) w = true)
    (split_char sep s).
Proof.
  induction s as [|c s IH]; [by repeat constructor|]. simpl.
  destruct (Ascii.eqb c sep) eqn:Hc; [by constructor|].
  destruct (split_char sep s) as [|w ws]; [by repeat constructor; simpl; rewrite Hc|].
  apply Forall_cons in IH as [Hw Hws]. constructor; [|done].
  simpl. by rewrite Hc.
Qed.

Lemma stripped_lines_clean ls :
  Forall (λ w, string_forall (λ c, negb (Ascii.eqb c newline)) w = true) ls →
  Forall clean_line (stripped_lines ls).
Proof.
  induction 1 as [|w ws Hw _ IH]; [constructor|]. simpl.
  destruct (nonempty (strip w)) eqn:Hne; [|done].
  constructor; [|done]. repeat split; [done|apply strip_idem|by apply strip_forall].
Qed.

(** X7. Every line of [recipeIngredient] and of [recipeInstructions] is a
    non-empty string without whitespace at either end and without a
    newline in it. *)
Theorem mapper_lines_are_clean (d : gmap string pyval) :
  (∃ ls, schema_of_dict d !! "recipeIngredient" = Some (PList (PStr <$> ls))
         ∧ Forall clean_line ls)
  ∧ (∃ ls, schema_of_dict d !! "recipeInstructions" = Some (PList (PStr <$> ls))
           ∧ Forall clean_line ls).
Proof.
  assert (∀ src, Forall clean_line (lines_field d src)) as Hclean.
  { intros src. unfold lines_field. destruct (d !! src) as [[]|]; try constructor.
    apply stripped_lines_clean, split_char_pieces. }
  split.
  - exists (lines_field d "ingredients"). split; [by schema_lookup|apply Hclean].
  - exists (lines_field d "directions"). split; [by schema_lookup|apply Hclean].
Qed.

(** ** The record materializer *)

Lemma write_file_blocked p (q : path) x d w :
  nonempty p = true → parse_path p = (q ++ [x])%list →
  fs w !! (q ++ [x]) = Some Dir →
  write_file p d w = (Raise IsADirectoryError, w).
Proof.
  intros Hp Hq Hdir. unfold write_file. by rewrite Hp, Hq, node_at_snoc, Hdir.
Qed.

Lemma node_at_insert_below f (q : path) x v :
  node_at (<[q ++ [x] := v]> f) q = node_at f q.
Proof.
  unfold node_at. destruct q as [|a q]; [done|].
  apply lookup_insert_ne. intros H. apply (f_equal length) in H.
  rewrite length_snoc in H. lia.
Qed.

Lemma not_dir_false o : not_dir o = false → o = Some Dir.
Proof. by destruct o as [[|?]|]. Qed.

(** The whole of [process_recipe_data] once the folder is made: the [try]
    block of the photo ends in bytes written or in an exception, and the
    [try] block of the document in a file written or in an error line. *)
Lemma process_recipe_data_outcome d n out src w f1 :
  dict_get d "name" (PStr "Untitled") = PStr n →
  makedirs_from (fs w) [] (folder_of out n) = Ok f1 →
  let img := folder_of out n ++ ["full.jpg"] in
  let json := folder_of out n ++ ["recipe.json"] in
  let photo := match photo_outcome d with
               | Some (Ok raw) =>
                   if not_dir (fs w !! img) then Some (Ok raw)
                   else Some (Raise IsADirectoryError)
               | o => o
               end in
  let sch := match photo with
             | Some (Ok _) => <["image" := PStr "full.jpg"]> (schema_of_dict d)
             | _ => schema_of_dict d
             end in
  let f2 := match photo with
            | Some (Ok raw) => <[img := File (Raw raw)]> f1
            | _ => f1
            end in
  let msgs := match photo with
              | Some (Raise e) => [MsgPhotoError (PStr n) e]
              | _ => []
              end in
  process_recipe_data (PDict d) out src w
  = (Ok tt,
     if not_dir (fs w !! json)
     then World (<[json := File (JsonText (PDict sch))]> f2)
            (stdout w ++ msgs
             ++ [MsgConverted (if nonempty src then PStr src else PStr n)
                   (path_join (path_join out (safe_dirname n)) "recipe.json")])
     else World f2 (stdout w ++ msgs ++ [MsgWriteError (PStr n) IsADirectoryError])).
Proof.
  intros Hn Hmk. cbv zeta. unfold process_recipe_data.
  unfold bind at 1, lift at 1. cbn [paprika_to_schemaorg].
  rewrite (schema_name_is _ _ Hn).
  unfold bind at 1, lift at 1. cbn [safe_dirname_dyn].
  assert (folder_of out n ≠ []) as Hne by (unfold folder_of; by destruct (parse_path out)).
  pose proof (makedirs_from_dir _ _ _ _ Hmk Hne) as Hdir. simpl in Hdir.
  assert (∀ x, f1 !! (folder_of out n ++ [x]) = fs w !! (folder_of out n ++ [x])) as Hframe.
  { intros x. apply (makedirs_from_frame _ _ _ _ _ Hmk). simpl. rewrite length_snoc. lia. }
  assert (node_at f1 (folder_of out n) = Some Dir) as Hnode.
  { unfold node_at. rewrite Hdir. by destruct (folder_of out n). }
  erewrite bind_ok; cycle 1.
  { apply makedirs_run; [apply nonempty_path_join, safe_dirname_nonempty|].
    rewrite parse_folder. exact Hmk. }
  unfold bind at 1, lift at 1. cbn [get_dyn].
  (* the document, written after a photo step that left [f2], [sch], [out2] *)
  assert (∀ f2 sch out2,
            f2 !! (folder_of out n ++ ["recipe.json"])
            = fs w !! (folder_of out n ++ ["recipe.json"]) →
            node_at f2 (folder_of out n) = Some Dir →
            try_except
              (bind (write_file (path_join (path_join out (safe_dirname n)) "recipe.json")
                       (JsonText (PDict sch)))
                 (λ _, print (MsgConverted
                                (if nonempty src then PStr src else PStr n)
                                (path_join (path_join out (safe_dirname n)) "recipe.json"))))
              (λ e, print (MsgWriteError (PStr n) e)) (World f2 out2)
            = (Ok tt,
               if not_dir (fs w !! (folder_of out n ++ ["recipe.json"]))
               then World (<[folder_of out n ++ ["recipe.json"]
                             := File (JsonText (PDict sch))]> f2)
                      (out2 ++ [MsgConverted
                                  (if nonempty src then PStr src else PStr n)
                                  (path_join (path_join out (safe_dirname n)) "recipe.json")])
               else World f2 (out2 ++ [MsgWriteError (PStr n) IsADirectoryError])))
    as Hdoc.
  { intros f2 sch out2 Hsame Hparent.
    destruct (not_dir (fs w !! (folder_of out n ++ ["recipe.json"]))) eqn:Hj.
    - apply try_ok. erewrite bind_ok; cycle 1.
      { apply (write_file_run _ (folder_of out n) "recipe.json");
          [by apply nonempty_path_join|by apply parse_in_folder|done|].
        cbn [fs]. by rewrite Hsame. }
      reflexivity.
    - rewrite (try_caught _ _ _ IsADirectoryError (World f2 out2));
        [reflexivity| |done].
      erewrite bind_raise; [reflexivity|].
      apply (write_file_blocked _ (folder_of out n) "recipe.json");
        [by apply nonempty_path_join|by apply parse_in_folder|].
      cbn [fs]. rewrite Hsame. by apply not_dir_false. }
  unfold photo_outcome.
  destruct (truthy (dict_get d "photo_data" PNone)).
  - destruct (Base64.b64decode (dict_get d "photo_data" PNone)) as [raw|e] eqn:Hdec.
    + destruct (not_dir (fs w !! (folder_of out n ++ ["full.jpg"]))) eqn:Hi.
      * erewrite bind_ok; cycle 1.
        { apply try_ok. erewrite bind_ok; [|reflexivity].
          erewrite bind_ok; [reflexivity|].
          apply (write_file_run _ (folder_of out n) "full.jpg");
            [by apply nonempty_path_join|by apply parse_in_folder|done|].
          cbn [fs]. by rewrite Hframe. }
        rewrite Hdoc; [reflexivity| |].
        -- rewrite lookup_insert_ne, Hframe; [done|].
           intros Heq. by apply app_inv_head in Heq.
        -- by rewrite node_at_insert_below.
      * erewrite bind_ok; cycle 1.
        { rewrite (try_caught _ _ _ IsADirectoryError (World f1 (stdout w)));
            [reflexivity| |done].
          erewrite bind_ok; [|reflexivity].
          erewrite bind_raise; [reflexivity|].
          apply (write_file_blocked _ (folder_of out n) "full.jpg");
            [by apply nonempty_path_join|by apply parse_in_folder|].
          cbn [fs]. rewrite Hframe. by apply not_dir_false. }
        cbn [fs stdout].
        rewrite Hdoc by done. by rewrite <- !app_assoc.
    + erewrite bind_ok; cycle 1.
      { erewrite try_caught; [reflexivity| |by eapply b64decode_raises].
        erewrite bind_raise; reflexivity. }
      cbn [fs stdout].
      rewrite Hdoc by done. by rewrite <- !app_assoc.
  - unfold ret at 1. unfold bind at 1. by rewrite Hdoc.
Qed.

Lemma record_name_dict d n :
  record_name (PDict d) = Some n ↔ dict_get d "name" (PStr "Untitled") = PStr n.
Proof.
  unfold record_name. destruct (dict_get d "name" (PStr "Untitled"));
    split; intros H; by simplify_eq.
Qed.

Lemma process_recipe_data_unnamed v out src w :
  record_name v = None →
  process_recipe_data v out src w = (Raise AttributeError, w).
Proof.
  intros H. unfold process_recipe_data, bind, lift.
  destruct v as [| | | | |l|d]; try done. cbn [paprika_to_schemaorg].
  unfold record_name in H. unfold dict_get at 1. rewrite schema_name. simpl.
  by destruct (dict_get d "name" (PStr "Untitled")).
Qed.

(** X8. A record that is not a dictionary, or whose name is not a string,
    makes [process_recipe_data] raise [AttributeError] before it has
    created a folder or printed a line. *)
Theorem unnamed_record_raises_without_effect v out src w :
  record_name v = None →
  process_recipe_data v out src w = (Raise AttributeError, w).
Proof. apply process_recipe_data_unnamed. Qed.

Lemma unnamed_record_raises_without_effect_witness :
  process_recipe_data (PList []) "out" "" Sample.start
  = (Raise AttributeError, Sample.start)
  ∧ process_recipe_data (PDict {[ "name" := PInt 7 ]}) "out" "" Sample.start
    = (Raise AttributeError, Sample.start).
Proof.
  split; apply unnamed_record_raises_without_effect; reflexivity.
Defined.

Lemma creatable_inv f out n :
  creatable f out n = true → ∃ f1, makedirs_from f [] (folder_of out n) = Ok f1.
Proof.
  unfold creatable. destruct (makedirs_from f [] (folder_of out n)) as [f1|]; [|done].
  by exists f1.
Qed.

(** X9. When [recipe.json] in the recipe's folder is a directory, the
    document cannot be written: the record still ends normally, the last
    line printed is the write error with the recipe's name, no line says
    the record was converted, and a photo that was decoded and written
    stays in [full.jpg]. *)
Theorem blocked_document_is_reported d n out src w :
  dict_get d "name" (PStr "Untitled") = PStr n →
  creatable (fs w) out n = true →
  fs w !! (folder_of out n ++ ["recipe.json"]) = Some Dir →
  ∃ w' msgs,
    process_recipe_data (PDict d) out src w = (Ok tt, w')
    ∧ stdout w' = stdout w ++ msgs ++ [MsgWriteError (PStr n) IsADirectoryError]
    ∧ Forall (λ m, ∃ e, m = MsgPhotoError (PStr n) e) msgs
    ∧ fs w' !! (folder_of out n ++ ["recipe.json"]) = Some Dir
    ∧ (∀ raw, photo_outcome d = Some (Ok raw) →
              not_dir (fs w !! (folder_of out n ++ ["full.jpg"])) = true →
              fs w' !! (folder_of out n ++ ["full.jpg"]) = Some (File (Raw raw))).
Proof.
  intros Hn [f1 Hmk]%creatable_inv Hjson.
  pose proof (process_recipe_data_outcome d n out src w f1 Hn Hmk) as Hrun.
  cbv zeta in Hrun. rewrite Hjson in Hrun. cbn [not_dir] in Hrun.
  assert (f1 !! (folder_of out n ++ ["recipe.json"]) = Some Dir) as Hj1.
  { by apply (makedirs_from_keeps _ _ _ _ _ _ Hmk). }
  eexists _, _. split; [exact Hrun|]. cbn [fs stdout]. split; [done|].
  destruct (photo_outcome d) as [[raw|e]|] eqn:Hp.
  - destruct (not_dir (fs w !! (folder_of out n ++ ["full.jpg"]))) eqn:Hi.
    + split; [constructor|]. split.
      * rewrite lookup_insert_ne; [done|]. intros H. by apply app_inv_head in H.
      * intros raw' [= <-] _. apply lookup_insert_eq.
    + split; [repeat constructor; by eexists|]. split; [done|]. by intros raw' _ ?.
  - split; [repeat constructor; by eexists|]. split; [done|]. by intros raw' ?.
  - split; [constructor|]. split; [done|]. by intros raw' ?.
Qed.

Lemma blocked_document_is_reported_witness :
  ∃ w' msgs,
    process_recipe_data (PDict Sample.tea) "out" ""
      (World (<[ ["out"; "tea"; "recipe.json"] := Dir ]> Sample.files) [])
    = (Ok tt, w')
    ∧ stdout w' = msgs ++ [MsgWriteError (PStr "Tea") IsADirectoryError].
Proof.
  destruct (blocked_document_is_reported Sample.tea "Tea" "out" ""
              (World (<[ ["out"; "tea"; "recipe.json"] := Dir ]> Sample.files) []))
    as (w' & msgs & Hrun & Hout & _); [vm_compute; reflexivity..|].
  exists w', msgs. split; [exact Hrun|exact Hout].
Defined.

(** X10. When [full.jpg] in the recipe's folder is a directory, a photo
    that decodes cannot be stored: the failure is reported as a photo
    error, the document keeps the mapper's image field, and [recipe.json]
    is written and announced all the same. *)
Theorem blocked_photo_is_reported d n out src w raw :
  dict_get d "name" (PStr "Untitled") = PStr n →
  creatable (fs w) out n = true →
  photo_outcome d = Some (Ok raw) →
  fs w !! (folder_of out n ++ ["full.jpg"]) = Some Dir →
  not_dir (fs w !! (folder_of out n ++ ["recipe.json"])) = true →
  ∃ f1,
    makedirs_from (fs w) [] (folder_of out n) = Ok f1
    ∧ process_recipe_data (PDict d) out src w
      = (Ok tt,
         World (<[folder_of out n ++ ["recipe.json"]
                  := File (JsonText (PDict (schema_of_dict d)))]> f1)
           (stdout w
            ++ [MsgPhotoError (PStr n) IsADirectoryError;
                MsgConverted (if nonempty src then PStr src else PStr n)
                  (path_join (path_join out (safe_dirname n)) "recipe.json")])).
Proof.
  intros Hn [f1 Hmk]%creatable_inv Hp Himg Hjson. exists f1. split; [done|].
  rewrite (process_recipe_data_outcome d n out src w f1 Hn Hmk).
  cbv zeta. by rewrite Hp, Himg, Hjson.
Qed.

Lemma blocked_photo_is_reported_witness :
  ∃ w', process_recipe_data (PDict (Sample.with_photo "aGk=")) "out" "t"
          (World (<[ ["out"; "tea"; "full.jpg"] := Dir ]> Sample.files) [])
        = (Ok tt, w')
        ∧ stdout w' = [MsgPhotoError (PStr "Tea") IsADirectoryError;
                       MsgConverted (PStr "t") "out/tea/recipe.json"].
Proof.
  destruct (blocked_photo_is_reported (Sample.with_photo "aGk=") "Tea" "out" "t"
              (World (<[ ["out"; "tea"; "full.jpg"] := Dir ]> Sample.files) [])
              [Byte.x68; Byte.x69])
    as (f1 & _ & Hrun); [vm_compute; reflexivity..|].
  eexists. split; [exact Hrun|]. cbn [stdout]. vm_compute. reflexivity.
Defined.

Lemma process_recipe_data_reads d d' out src w :
  (∀ key, key ∈ "photo_data" :: source_keys → d' !! key = d !! key) →
  process_recipe_data (PDict d') out src w = process_recipe_data (PDict d) out src w.
Proof.
  intros H. unfold process_recipe_data.
  cbn [paprika_to_schemaorg get_dyn].
  rewrite (schema_depends_on_source_keys d d')
    by (intros key Hk; apply H; by apply elem_of_cons; right).
  assert (dict_get d' "photo_data" PNone = dict_get d "photo_data" PNone) as ->;
    [|reflexivity].
  unfold dict_get. by rewrite (H "photo_data") by apply list_elem_of_here.
Qed.

(** X11. What [process_recipe_data] does with a record depends only on the
    sixteen keys the mapper reads and on [photo_data]: setting or removing
    any other key changes neither the result, nor the files, nor the
    lines printed. *)
Theorem materializer_ignores_other_keys d k v out src w :
  k ∉ "photo_data" :: source_keys →
  process_recipe_data (PDict (<[k := v]> d)) out src w
  = process_recipe_data (PDict d) out src w
  ∧ process_recipe_data (PDict (delete k d)) out src w
    = process_recipe_data (PDict d) out src w.
Proof.
  intros Hk. split; apply process_recipe_data_reads; intros key Hkey.
  - apply lookup_insert_ne. by intros ->.
  - apply lookup_delete_ne. by intros ->.
Qed.

Lemma materializer_ignores_other_keys_witness :
  process_recipe_data (PDict (<["uid" := PStr "A1"]> Sample.tea)) "out" "" Sample.start
  = process_recipe_data (PDict Sample.tea) "out" "" Sample.start.
Proof.
  apply (materializer_ignores_other_keys Sample.tea "uid" (PStr "A1")).
  unfold source_keys. rewrite !not_elem_of_cons. repeat split; try done.
  apply not_elem_of_nil.
Defined.

(** X12. A [photo_data] that Python counts as false (null, the empty
    string, zero, an empty list or dictionary) is treated exactly as an
    absent one: no decoding is tried, nothing is printed about the photo
    and [full.jpg] is not touched. *)
Theorem falsy_photo_is_no_photo d out src w :
  truthy (dict_get d "photo_data" PNone) = false →
  process_recipe_data (PDict d) out src w
  = process_recipe_data (PDict (delete "photo_data" d)) out src w.
Proof.
  intros Hf. unfold process_recipe_data.
  cbn [paprika_to_schemaorg get_dyn].
  rewrite (schema_depends_on_source_keys d (delete "photo_data" d)).
  2:{ intros key Hk. apply lookup_delete_ne. intros <-.
      unfold source_keys in Hk.
      repeat (apply elem_of_cons in Hk as [Hk|Hk]; [done|]).
      by apply elem_of_nil in Hk. }
  assert (dict_get (delete "photo_data" d) "photo_data" PNone = PNone) as ->.
  { unfold dict_get. by rewrite lookup_delete_eq. }
  unfold bind, lift. cbv beta.
  destruct (dict_get (schema_of_dict d) "name" (PStr "Untitled")); try done.
  cbn [safe_dirname_dyn]. cbv beta iota.
  destruct (makedirs _ w) as [[[]|e] w1]; [|done].
  by rewrite Hf.
Qed.

Lemma falsy_photo_is_no_photo_witness :
  process_recipe_data (PDict (Sample.with_photo "")) "out" "" Sample.start
  = process_recipe_data
      (PDict (delete "photo_data" (Sample.with_photo ""))) "out" "" Sample.start.
Proof. apply falsy_photo_is_no_photo. reflexivity. Defined.

Lemma record_files_idem d n out f1 :
  record_files d n out (record_files d n out f1) = record_files d n out f1.
Proof.
  unfold record_files. cbv zeta.
  assert (folder_of out n ++ ["full.jpg"] ≠ folder_of out n ++ ["recipe.json"]) as Hne.
  { intros H. by apply app_inv_head in H. }
  destruct (photo_outcome d) as [[raw|e]|].
  - by rewrite (insert_insert_ne _ _ _ _ _ Hne), !insert_insert_eq.
  - apply insert_insert_eq.
  - apply insert_insert_eq.
Qed.

(** X13. Converting the same record a second time into the same output
    directory succeeds, leaves every file exactly as the first run left
    it, and prints the record's lines once more: re-running is harmless
    for the files and is not detected. *)
Theorem second_run_changes_no_file d n out src w :
  dict_get d "name" (PStr "Untitled") = PStr n →
  writable (fs w) out n = true →
  ∃ w1 w2,
    process_recipe_data (PDict d) out src w = (Ok tt, w1)
    ∧ process_recipe_data (PDict d) out src w1 = (Ok tt, w2)
    ∧ fs w2 = fs w1
    ∧ stdout w2 = stdout w1 ++ record_messages d n out src.
Proof.
  intros Hn Hw.
  destruct (writable_run d n out src w Hn Hw) as (f1 & Hmk & Hrun).
  apply writable_inv in Hw as (f1' & Hmk' & Himg & Hjson).
  destruct (writable_again d n out (fs w) f1 Hmk Himg Hjson) as [Hmk2 Hw2].
  apply writable_inv in Hw2 as (f2 & _ & Himg2 & Hjson2).
  eexists _, _. split; [exact Hrun|]. split.
  - by apply process_recipe_data_run.
  - cbn [fs stdout]. split; [apply record_files_idem|done].
Qed.

Lemma second_run_changes_no_file_witness :
  ∃ w1 w2,
    process_recipe_data (PDict Sample.tea) "out" "" Sample.start = (Ok tt, w1)
    ∧ process_recipe_data (PDict Sample.tea) "out" "" w1 = (Ok tt, w2)
    ∧ fs w2 = fs w1.
Proof.
  destruct (second_run_changes_no_file Sample.tea "Tea" "out" "" Sample.start)
    as (w1 & w2 & H1 & H2 & Hfs & _); [vm_compute; reflexivity..|].
  by exists w1, w2.
Defined.

(** X14. A photo can outlive its record: when a record with a photo that
    decodes is followed by a record without photo whose name sanitizes to
    the same folder, [full.jpg] still holds the first record's bytes,
    while [recipe.json] is the second record's document and its image
    field is the second record's [image_url]. *)
Theorem photo_survives_collision d1 d2 n1 n2 out s1 s2 w raw :
  dict_get d1 "name" (PStr "Untitled") = PStr n1 →
  dict_get d2 "name" (PStr "Untitled") = PStr n2 →
  safe_dirname n1 = safe_dirname n2 →
  photo_outcome d1 = Some (Ok raw) →
  photo_outcome d2 = None →
  writable (fs w) out n1 = true →
  ∃ w1 w2,
    process_recipe_data (PDict d1) out s1 w = (Ok tt, w1)
    ∧ process_recipe_data (PDict d2) out s2 w1 = (Ok tt, w2)
    ∧ fs w2 !! (folder_of out n2 ++ ["full.jpg"]) = Some (File (Raw raw))
    ∧ fs w2 !! (folder_of out n2 ++ ["recipe.json"])
      = Some (File (JsonText (PDict (schema_of_dict d2))))
    ∧ schema_of_dict d2 !! "image" = Some (dict_get d2 "image_url" (PStr "")).
Proof.
  intros Hn1 Hn2 Hsame Hp1 Hp2 Hw.
  assert (folder_of out n2 = folder_of out n1) as Hf.
  { unfold folder_of. by rewrite Hsame. }
  destruct (writable_run d1 n1 out s1 w Hn1 Hw) as (f1 & Hmk & Hrun).
  apply writable_inv in Hw as (f1' & Hmk' & Himg & Hjson).
  destruct (writable_again d1 n1 out (fs w) f1 Hmk Himg Hjson) as [Hmk2 Hw2].
  apply writable_inv in Hw2 as (f2 & _ & Himg2 & Hjson2).
  eexists _, _. split; [exact Hrun|]. split.
  - apply process_recipe_data_run; cbn [fs]; by rewrite ?Hf.
  - cbn [fs]. unfold record_files at 1 3, written_schema. cbv zeta.
    rewrite Hp2, Hf. split; [|split].
    + rewrite lookup_insert_ne by (intros H; by apply app_inv_head in H).
      unfold record_files. cbv zeta. rewrite Hp1.
      rewrite lookup_insert_ne by (intros H; by apply app_inv_head in H).
      apply lookup_insert_eq.
    + apply lookup_insert_eq.
    + by schema_lookup.
Qed.

Lemma photo_survives_collision_witness :
  ∃ w1 w2,
    process_recipe_data (PDict (Sample.with_photo "aGk=")) "out" "" Sample.start
    = (Ok tt, w1)
    ∧ process_recipe_data (PDict Sample.tea) "out" "" w1 = (Ok tt, w2)
    ∧ fs w2 !! ["out"; "tea"; "full.jpg"] = Some (File (Raw ["h"; "i"]%byte))
    ∧ fs w2 !! ["out"; "tea"; "recipe.json"]
      = Some (File (JsonText (PDict (schema_of_dict Sample.tea)))).
Proof.
  destruct (photo_survives_collision (Sample.with_photo "aGk=") Sample.tea
              "Tea" "Tea" "out" "" "" Sample.start ["h"; "i"]%byte)
    as (w1 & w2 & H1 & H2 & Himg & Hjson & _); [vm_compute; reflexivity..|].
  by exists w1, w2.
Defined.

Lemma process_recipe_data_unmade d n out src w e :
  dict_get d "name" (PStr "Untitled") = PStr n →
  makedirs_from (fs w) [] (folder_of out n) = Raise e →
  process_recipe_data (PDict d) out src w = (Raise e, w).
Proof.
  intros Hn Hmk. unfold process_recipe_data.
  unfold bind at 1, lift at 1. cbn [paprika_to_schemaorg].
  rewrite (schema_name_is _ _ Hn).
  unfold bind at 1, lift at 1. cbn [safe_dirname_dyn].
  apply bind_raise. unfold makedirs.
  rewrite nonempty_path_join by apply safe_dirname_nonempty.
  by rewrite parse_folder, Hmk.
Qed.

(** X15. [process_recipe_data] raises only before it has had any effect:
    either the record has no usable name ([AttributeError]) or the
    recipe's folder cannot be made (the error of [os.makedirs]); in both
    cases no file has been touched and nothing has been printed. Every
    later failure is caught inside the function. *)
Theorem materializer_raises_before_any_effect v out src w e w' :
  process_recipe_data v out src w = (Raise e, w') →
  w' = w
  ∧ (record_name v = None ∧ e = AttributeError
     ∨ ∃ n, record_name v = Some n
            ∧ makedirs_from (fs w) [] (folder_of out n) = Raise e).
Proof.
  intros Hrun. destruct (record_name v) as [n|] eqn:Hv.
  - destruct v as [| | | | |l|d]; try done. apply record_name_dict in Hv.
    destruct (makedirs_from (fs w) [] (folder_of out n)) as [f1|e'] eqn:Hmk.
    + rewrite (process_recipe_data_outcome d n out src w f1 Hv Hmk) in Hrun.
      by destruct (not_dir _).
    + rewrite (process_recipe_data_unmade d n out src w e' Hv Hmk) in Hrun.
      simplify_eq. split; [done|]. right. by exists n.
  - rewrite (process_recipe_data_unnamed v out src w Hv) in Hrun.
    simplify_eq. split; [done|]. by left.
Qed.

Lemma materializer_raises_before_any_effect_witness :
  ∃ n, record_name (PDict Sample.tea) = Some n
       ∧ makedirs_from Sample.files [] (folder_of "blocked" n)
         = Raise NotADirectoryError.
Proof.
  destruct (materializer_raises_before_any_effect
              (PDict Sample.tea) "blocked" "" Sample.start
              NotADirectoryError Sample.start) as [_ [[H _]|H]].
  - apply (process_recipe_data_unmade Sample.tea "Tea"); vm_compute; reflexivity.
  - discriminate H.
  - exact H.
Defined.

(** ** Single files and archives *)


Lemma process_paprikarecipe_file_reads p out w :
  process_paprikarecipe_file p out w
  = try_except
      (bind (lift (file_record (fs w) p))
            (λ v, process_recipe_data v out (basename p)))
      (λ e, print (MsgFileError p e)) w.
Proof.
  unfold process_paprikarecipe_file, try_except, bind, lift, read_file, file_record.
  destruct (stat (fs w) p) as [[|c]|]; try done.
  destruct (gzip_decompress c) as [t|e]; [|done]. by destruct (json_loads t).
Qed.



Lemma process_paprikarecipe_file_run p out w d n :
  file_record (fs w) p = Ok (PDict d) →
  dict_get d "name" (PStr "Untitled") = PStr n →
  writable (fs w) out n = true →
  ∃ f1, makedirs_from (fs w) [] (folder_of out n) = Ok f1
        ∧ process_paprikarecipe_file p out w
          = (Ok tt, World (record_files d n out f1)
                      (stdout w ++ record_messages d n out (basename p))).
Proof.
  intros Hrec Hn Hw.
  destruct (writable_run d n out (basename p) w Hn Hw) as (f1 & Hmk & Hrun).
  exists f1. split; [done|]. rewrite process_paprikarecipe_file_reads.
  apply try_ok. unfold bind, lift. by rewrite Hrec.
Qed.

(** X17. A single-record file that holds a record with a string name is
    materialized as [process_recipe_data] does it, and the line that
    announces it names the file by its base name, without the
    directories of its path. *)
Theorem single_file_is_materialized p out w d n :
  file_record (fs w) p = Ok (PDict d) →
  dict_get d "name" (PStr "Untitled") = PStr n →
  writable (fs w) out n = true →
  ∃ f1, makedirs_from (fs w) [] (folder_of out n) = Ok f1
        ∧ process_paprikarecipe_file p out w
          = (Ok tt, World (record_files d n out f1)
                      (stdout w ++ record_messages d n out (basename p))).
Proof. apply process_paprikarecipe_file_run. Qed.

Lemma single_file_is_materialized_witness :
  ∃ w', process_paprikarecipe_file "tea.paprikarecipe" "out" Sample.start = (Ok tt, w')
        ∧ stdout w' = [MsgConverted (PStr "tea.paprikarecipe") "out/tea/recipe.json"].
Proof.
  destruct (single_file_is_materialized "tea.paprikarecipe" "out" Sample.start
              Sample.tea "Tea") as (f1 & _ & Hrun); [vm_compute; reflexivity..|].
  eexists. split; [exact Hrun|]. cbn [stdout]. vm_compute. reflexivity.
Defined.

Lemma for_each_filter {A} (keep : A → bool) (body body' : A → M unit) l w :
  (∀ x w, keep x = false → body x w = (Ok tt, w)) →
  (∀ x w, keep x = true → body x w = body' x w) →
  for_each l body w = for_each (List.filter keep l) body' w.
Proof.
  intros Hskip Hkeep. revert w. induction l as [|x l IH]; intros w; [done|].
  cbn [for_each List.filter]. destruct (keep x) eqn:E.
  - cbn [for_each]. unfold bind. rewrite (Hkeep x w E).
    destruct (body' x w) as [[[]|e] w1]; [apply IH|done].
  - unfold bind. rewrite (Hskip x w E). apply IH.
Qed.

(** X18. A bulk export that can be opened is processed member by member,
    in the order of the archive's name list, and only members whose
    name ends in [.paprikarecipe] (in any case) count: every other member
    (a directory entry, a nested bulk export, any other file) is passed
    over without reading it and without printing anything. The handler
    around the archive is never entered. *)
Theorem bulk_export_reads_selected_members zip out w zf :
  stat (fs w) zip = Some (File (Zip zf)) →
  process_bulk_export zip out w
  = for_each (List.filter selected (namelist zf))
      (λ m, try_except
              (bind (lift (member_record zf m)) (λ v, process_recipe_data v out m))
              (λ e, print (MsgMemberError m zip e))) w.
Proof.
  intros Hstat. rewrite (process_bulk_export_opened zip out w zf).
  - apply for_each_filter; intros m w1 Hm.
    + unfold process_member, selected in *. by rewrite Hm.
    + by apply process_member_selected.
  - unfold ZipFile, bind, read_file. by rewrite Hstat.
Qed.

Lemma bulk_export_reads_selected_members_witness :
  process_bulk_export "export.paprikarecipes" "out" Sample.start
  = for_each ["tea.paprikarecipe"; "broken.paprikarecipe"; "coffee.paprikarecipe"]
      (λ m, try_except
              (bind (lift (member_record Sample.archive m))
                    (λ v, process_recipe_data v "out" m))
              (λ e, print (MsgMemberError m "export.paprikarecipes" e)))
      Sample.start.
Proof.
  apply (bulk_export_reads_selected_members "export.paprikarecipes" "out"
           Sample.start Sample.archive).
  vm_compute. reflexivity.
Defined.

Lemma string_last_app a b : nonempty b = true → string_last (a +:+ b) = string_last b.
Proof.
  intros Hb. induction a as [|c a IH]; [done|].
  rewrite app_cons. cbn [string_last]. rewrite IH.
  destruct (a +:+ b) eqn:E; [|done].
  destruct a; [|done]. rewrite app_empty_l in E. by subst b.
Qed.

Lemma endswith_exclusive s :
  endswith s ".paprikarecipes" = true → endswith s ".paprikarecipe" = false.
Proof.
  intros [a Ha]%endswith_inv.
  destruct (endswith s ".paprikarecipe") eqn:E; [|done].
  apply endswith_inv in E as [b Hb].
  assert (string_last s = Some "s"%char) as H1.
  { rewrite Ha. by rewrite string_last_app. }
  assert (string_last s = Some "e"%char) as H2.
  { rewrite Hb. by rewrite string_last_app. }
  congruence.
Qed.

(** X19. The two file extensions exclude each other: a name that ends in
    [.paprikarecipes] is never taken for a single record, neither in a
    directory, nor in an archive, nor as the input path itself, so the
    order of the two tests in [main] does not matter. *)
Theorem bulk_export_is_no_record s :
  endswith (lower s) ".paprikarecipes" = true → selected s = false.
Proof. unfold selected. apply endswith_exclusive. Qed.

Lemma bulk_export_is_no_record_witness : selected "Export.PaprikaRecipes" = false.
Proof. apply bulk_export_is_no_record. reflexivity. Defined.

(** ** The whole run *)

Lemma within_same out w w' :
  fs w' = fs w → (∃ added, stdout w' = stdout w ++ added) → within out w w'.
Proof. intros Hfs Hout. unfold within. rewrite Hfs. by repeat split. Qed.

Lemma within_refl out w : within out w w.
Proof. apply within_same; [done|]. exists []. by rewrite app_nil_r. Qed.

Lemma within_trans out w1 w2 w3 :
  within out w1 w2 → within out w2 w3 → within out w1 w3.
Proof.
  intros (H1 & H2 & [a1 H3]) (K1 & K2 & [a2 K3]). split; [|split].
  - intros q Hq1 Hq2. by rewrite K1, H1.
  - intros q x Hq Hc. apply K2; [|done]. by apply H2.
  - exists (a1 ++ a2). by rewrite K3, H3, app_assoc.
Qed.

Lemma confined_ret {A} out (a : A) : confined out (ret a).
Proof. intros w r w' [= <- <-]. apply within_refl. Qed.

Lemma confined_raise {A} out e : confined out (@raise A e).
Proof. intros w r w' [= <- <-]. apply within_refl. Qed.

Lemma confined_lift {A} out (r : res A) : confined out (lift r).
Proof. intros w r' w' [= <- <-]. apply within_refl. Qed.

Lemma confined_print out m : confined out (print m).
Proof. intros w r w' [= <- <-]. apply within_same; [done|]. by exists [m]. Qed.

Lemma confined_isdir out p : confined out (isdir p).
Proof. intros w r w' [= <- <-]. apply within_refl. Qed.

Lemma confined_isfile out p : confined out (isfile p).
Proof. intros w r w' [= <- <-]. apply within_refl. Qed.

Lemma confined_listdir out p : confined out (listdir p).
Proof. intros w r w' [= <- <-]. apply within_refl. Qed.

Lemma confined_read_file out p : confined out (read_file p).
Proof.
  intros w r w'. unfold read_file.
  destruct (stat (fs w) p) as [[|c]|]; intros [= <- <-]; apply within_refl.
Qed.

Lemma confined_bind {A B} out (m : M A) (k : A → M B) :
  confined out m →
  (∀ w a w', m w = (Ok a, w') → confined out (k a)) →
  confined out (bind m k).
Proof.
  intros Hm Hk w r w' E. unfold bind in E.
  destruct (m w) as [[a|e] w1] eqn:E1.
  - eapply within_trans; [by eapply Hm|]. by eapply Hk.
  - simplify_eq. by eapply Hm.
Qed.

Lemma confined_try {A} out (m : M A) h :
  confined out m → (∀ e, confined out (h e)) → confined out (try_except m h).
Proof.
  intros Hm Hh w r w' E. unfold try_except in E.
  destruct (m w) as [[a|e] w1] eqn:E1.
  - simplify_eq. by eapply Hm.
  - destruct (is_Exception e).
    + eapply within_trans; [by eapply Hm|]. by eapply Hh.
    + simplify_eq. by eapply Hm.
Qed.

Lemma confined_for_each {A} out (l : list A) body :
  (∀ x, confined out (body x)) → confined out (for_each l body).
Proof.
  intros Hb. induction l as [|x l IH]; [apply confined_ret|].
  cbn [for_each]. apply confined_bind; [apply Hb|by intros].
Qed.

Lemma confined_ZipFile out p : confined out (ZipFile p).
Proof.
  unfold ZipFile. apply confined_bind; [apply confined_read_file|].
  intros _ d _ _. destruct d; first [apply confined_ret|apply confined_raise].
Qed.

Lemma makedirs_from_changes f pre todo f' (q : path) :
  makedirs_from f pre todo = Ok f' → ¬ q `prefix_of` pre ++ todo → f' !! q = f !! q.
Proof.
  revert f pre. induction todo as [|n todo IH]; intros f pre; simpl.
  - by intros [= ->].
  - replace (pre ++ n :: todo) with ((pre ++ [n]) ++ todo) by (by rewrite <- app_assoc).
    destruct (f !! (pre ++ [n])) as [[|c]|] eqn:E; [apply IH|done|].
    intros H Hq. rewrite (IH _ _ H Hq). apply lookup_insert_ne.
    intros <-. apply Hq. by apply prefix_app_r.
Qed.

Lemma confined_makedirs out p :
  out `prefix_of` parse_path p → confined out (makedirs p).
Proof.
  intros Hp w r w'. unfold makedirs.
  destruct (nonempty p); [|intros [= <- <-]; apply within_refl].
  destruct (makedirs_from (fs w) [] (parse_path p)) as [f'|e] eqn:E;
    intros [= <- <-]; [|apply within_refl].
  split; [|split]; cbn [fs stdout].
  - intros q Hq1 Hq2. apply (makedirs_from_changes _ _ _ _ _ E). simpl.
    intros Hpre. by destruct (prefix_weak_total _ _ _ Hpre Hp).
  - intros q x Hq _. by eapply makedirs_from_keeps.
  - exists []. by rewrite app_nil_r.
Qed.

Lemma confined_write_file out p d :
  out `prefix_of` parse_path p →
  last (parse_path p) = Some "full.jpg" ∨ last (parse_path p) = Some "recipe.json" →
  confined out (write_file p d).
Proof.
  intros Hp Hl w r w'. unfold write_file.
  destruct (nonempty p); [|intros [= <- <-]; apply within_refl]. cbv zeta.
  assert (node_at (fs w) (parse_path p) = fs w !! parse_path p) as Hat.
  { destruct (parse_path p); [by destruct Hl|done]. }
  rewrite Hat.
  destruct (fs w !! parse_path p) as [[|c]|] eqn:E1;
    [intros [= <- <-]; apply within_refl|..];
    (destruct (node_at (fs w) (parent (parse_path p))) as [[|c']|];
     intros [= <- <-]; try apply within_refl);
    (split; [|split]; cbn [fs stdout];
     [ intros q Hq1 Hq2; apply lookup_insert_ne; by intros <-
     | intros q x Hq Hc; rewrite lookup_insert_ne; [done|]; intros <-;
       destruct Hc as [->|[? ?]]; [congruence|by destruct Hl]
     | exists []; by rewrite app_nil_r ]).
Qed.

Lemma confined_process_recipe_data v out src :
  confined (parse_path out) (process_recipe_data v out src).
Proof.
  unfold process_recipe_data.
  apply confined_bind; [apply confined_lift|intros _ sch _ _].
  apply confined_bind; [apply confined_lift|intros w0 folder w0' Hf].
  unfold lift in Hf.
  destruct (dict_get sch "name" (PStr "Untitled")) as [| | | |n| |];
    cbn [safe_dirname_dyn] in Hf; simplify_eq.
  assert (∀ file, slash_free file = true → nonempty file = true →
            parse_path out
            `prefix_of` parse_path (path_join (path_join out (safe_dirname n)) file))
    as Hin.
  { intros file ? ?. rewrite parse_in_folder by done. unfold folder_of.
    rewrite <- app_assoc. by apply prefix_app_r. }
  assert (∀ file, slash_free file = true → nonempty file = true →
            last (parse_path (path_join (path_join out (safe_dirname n)) file))
            = Some file) as Hlast.
  { intros file ? ?. rewrite parse_in_folder by done. apply last_snoc. }
  apply confined_bind.
  { apply confined_makedirs. rewrite parse_folder. by apply prefix_app_r. }
  intros _ _ _ _.
  apply confined_bind; [apply confined_lift|intros _ photo _ _].
  apply confined_bind.
  - destruct (truthy photo); [|apply confined_ret]. apply confined_try.
    + apply confined_bind; [apply confined_lift|intros _ raw _ _].
      apply confined_bind; [|intros; apply confined_ret].
      apply confined_write_file; [by apply Hin|left; by apply Hlast].
    + intros e. apply confined_bind; [apply confined_print|intros; apply confined_ret].
  - intros _ sch' _ _. apply confined_try; [|intros; apply confined_print].
    apply confined_bind; [|intros; apply confined_print].
    apply confined_write_file; [by apply Hin|right; by apply Hlast].
Qed.

Lemma confined_process_paprikarecipe_file p out :
  confined (parse_path out) (process_paprikarecipe_file p out).
Proof.
  unfold process_paprikarecipe_file.
  apply confined_try; [|intros; apply confined_print].
  apply confined_bind; [|intros; apply confined_process_recipe_data].
  apply confined_bind; [apply confined_read_file|intros].
  apply confined_bind; [apply confined_lift|intros; apply confined_lift].
Qed.

Lemma confined_process_member zf zip out m :
  confined (parse_path out) (process_member zf zip out m).
Proof.
  unfold process_member. destruct (endswith _ _); [|apply confined_ret].
  apply confined_try; [|intros; apply confined_print].
  apply confined_bind; [apply confined_lift|intros].
  apply confined_bind; [apply confined_lift|intros].
  apply confined_bind; [apply confined_lift|intros].
  apply confined_process_recipe_data.
Qed.

Lemma confined_process_bulk_export zip out :
  confined (parse_path out) (process_bulk_export zip out).
Proof.
  unfold process_bulk_export.
  apply confined_try; [|intros; apply confined_print].
  apply confined_bind; [apply confined_ZipFile|intros].
  apply confined_for_each. intros m. apply confined_process_member.
Qed.

Lemma confined_main argv : confined (parse_path (argv_at argv 2)) (main argv).
Proof.
  unfold main. destruct (length argv <? 3)%nat.
  { apply confined_bind; [apply confined_print|intros; apply confined_raise]. }
  apply confined_bind; [by apply confined_makedirs|intros _ _ _ _].
  apply confined_bind; [apply confined_isdir|intros _ is_dir _ _].
  apply confined_bind; [|intros; apply confined_print].
  destruct is_dir.
  - apply confined_bind; [apply confined_listdir|intros _ names _ _].
    apply confined_for_each. intros fname.
    apply confined_bind; [apply confined_isfile|intros _ is_file _ _].
    destruct (is_file && _);
      [apply confined_process_paprikarecipe_file|apply confined_ret].
  - apply confined_bind; [apply confined_isfile|intros _ is_file _ _].
    destruct is_file.
    + destruct (endswith _ ".paprikarecipes");
        [apply confined_process_bulk_export|].
      destruct (endswith _ ".paprikarecipe");
        [apply confined_process_paprikarecipe_file|apply confined_print].
    + apply confined_bind; [apply confined_print|intros; apply confined_raise].
Qed.


Lemma bind_ok_inv {A B} (m : M A) (k : A → M B) w b w' :
  bind m k w = (Ok b, w') → ∃ a w1, m w = (Ok a, w1) ∧ k a w1 = (Ok b, w').
Proof.
  unfold bind. destruct (m w) as [[a|e] w1]; [|done]. intros H. by exists a, w1.
Qed.

Lemma makedirs_again p w w1 :
  makedirs p w = (Ok tt, w1) → makedirs p w1 = (Ok tt, w1).
Proof.
  unfold makedirs. destruct (nonempty p); [|done].
  destruct (makedirs_from (fs w) [] (parse_path p)) as [f'|] eqn:E; [|done].
  intros [= <-]. cbn [fs stdout].
  by rewrite (dirs_from_makedirs _ _ _ (makedirs_from_dirs _ _ _ _ E)).
Qed.

(** X21. A run that ends with status 0 had both arguments, its last line
    on the console is the closing message naming the output directory,
    and the output directory exists when it ends. *)
Theorem successful_run_announces_done argv w w' :
  main argv w = (Ok tt, w') →
  3 ≤ length argv
  ∧ last (stdout w') = Some (MsgDone (argv_at argv 2))
  ∧ stat (fs w') (argv_at argv 2) = Some Dir.
Proof.
  intros Hrun.
  destruct (decide (3 ≤ length argv)) as [Hlen|Hlen];
    [|by rewrite main_short in Hrun by lia].
  split; [done|].
  pose proof Hrun as Hrun0. rewrite main_long in Hrun by done.
  apply bind_ok_inv in Hrun as ([] & w1 & Hmk & Hrest).
  assert (main argv w1 = (Ok tt, w')) as Hrun1.
  { rewrite main_long by done. by rewrite (bind_ok _ _ _ _ _ (makedirs_again _ _ _ Hmk)). }
  apply bind_ok_inv in Hrest as (is_dir & w2 & _ & Hrest).
  apply bind_ok_inv in Hrest as ([] & w3 & _ & Hdone).
  unfold print in Hdone. simplify_eq. cbn [fs stdout]. split; [apply last_snoc|].
  pose proof (makedirs_creates _ _ _ Hmk) as Hdir.
  destruct (confined_main argv _ _ _ Hrun1) as (_ & Hkeep & _).
  unfold stat, node_at in Hdir |- *. cbn [fs] in Hkeep.
  destruct (nonempty (argv_at argv 2)); [|done].
  destruct (parse_path (argv_at argv 2)) as [|a q] eqn:Hq; [done|].
  apply Hkeep; [done|by left].
Qed.

Lemma successful_run_announces_done_witness :
  ∃ w', main ["convert.py"; "tea.paprikarecipe"; "out"] Sample.start = (Ok tt, w')
        ∧ last (stdout w') = Some (MsgDone "out").
Proof.
  destruct (main_valid ["convert.py"; "tea.paprikarecipe"; "out"]
              Sample.start Sample.start) as [w' Hrun];
    [simpl; lia|vm_compute; reflexivity|vm_compute; discriminate|].
  exists w'. split; [exact Hrun|].
  by destruct (successful_run_announces_done _ _ _ Hrun) as (_ & Hlast & _).
Defined.

(** X22. End to end: started on a single-record file whose name ends in
    [.paprikarecipe] and that holds a record with a string name, with an
    output directory that exists and in which nothing is in the way, the
    script exits with status 0, has created the recipe's folder with the
    record's files in it and nothing else, and has printed the record's
    lines, labelled with the file's base name, followed by the closing
    message; arguments after the second are ignored. *)
Theorem run_converts_single_file prog p out rest w d n :
  nonempty out = true →
  selected p = true →
  file_record (fs w) p = Ok (PDict d) →
  dict_get d "name" (PStr "Untitled") = PStr n →
  ready (fs w) out n = true →
  run (prog :: p :: out :: rest) w
  = (0%Z,
     World (record_files d n out (<[folder_of out n := Dir]> (fs w)))
       (stdout w ++ record_messages d n out (basename p) ++ [MsgDone out])).
Proof.
  intros Hout Hsel Hrec Hn Hready. unfold run.
  rewrite main_long by (simpl; lia).
  change (argv_at (prog :: p :: out :: rest) 1) with p.
  change (argv_at (prog :: p :: out :: rest) 2) with out.
  pose proof (ready_inv _ _ _ Hready) as (Hdirs & _).
  rewrite (bind_ok _ _ _ tt w).
  2:{ rewrite (makedirs_run out w (fs w) Hout (dirs_from_makedirs _ _ _ Hdirs)).
      by destruct w. }
  assert (∃ c, stat (fs w) p = Some (File c)) as [c Hstat].
  { unfold file_record in Hrec. destruct (stat (fs w) p) as [[|c]|]; [done| |done].
    by exists c. }
  unfold bind at 1, isdir at 1. rewrite Hstat.
  unfold bind at 1. unfold bind at 1, isfile at 1. rewrite Hstat.
  assert (endswith (lower p) ".paprikarecipes" = false) as ->.
  { destruct (endswith (lower p) ".paprikarecipes") eqn:E; [|done].
    apply endswith_exclusive in E. unfold selected in Hsel. congruence. }
  unfold selected in Hsel. rewrite Hsel.
  destruct (process_paprikarecipe_file_run p out w d n Hrec Hn
              (ready_writable _ _ _ Hready)) as (f1 & Hmk & ->).
  rewrite (ready_makedirs _ _ _ Hready) in Hmk. simplify_eq.
  unfold print. cbn [fs stdout exit_status]. by rewrite <- app_assoc.
Qed.

Lemma run_converts_single_file_witness :
  ∃ f, run ["convert.py"; "tea.paprikarecipe"; "out"; "ignored"] Sample.start
       = (0%Z, World f [MsgConverted (PStr "tea.paprikarecipe") "out/tea/recipe.json";
                        MsgDone "out"]).
Proof.
  eexists.
  rewrite (run_converts_single_file "convert.py" "tea.paprikarecipe" "out"
             ["ignored"] Sample.start Sample.tea "Tea");
    [|vm_compute; reflexivity..].
  f_equal.
Defined.

(** ** Directory input *)

Lemma for_each_filter_stable {A} (P : world → Prop) (Q : A → Prop)
    (keep : A → bool) (body body' : A → M unit) l :
  (∀ x w, Q x → P w → keep x = false → body x w = (Ok tt, w)) →
  (∀ x w, Q x → P w → keep x = true → body x w = body' x w) →
  (∀ x w r w', Q x → P w → body' x w = (r, w') → P w') →
  Forall Q l →
  ∀ w, P w → for_each l body w = for_each (List.filter keep l) body' w.
Proof.
  intros Hskip Hkeep Hstep Hl. induction Hl as [|x l Hx Hl IH]; intros w Hw; [done|].
  cbn [for_each List.filter]. destruct (keep x) eqn:E.
  - cbn [for_each]. unfold bind. rewrite (Hkeep x w Hx Hw E).
    destruct (body' x w) as [[[]|e] w1] eqn:E1; [|done]. apply IH. by eapply Hstep.
  - unfold bind. rewrite (Hskip x w Hx Hw E). by apply IH.
Qed.

Lemma apart_child (a out : path) x : apart a out → apart (a ++ [x]) out.
Proof.
  intros [H1 H2]. split.
  - intros H. by apply prefix_app_l in H.
  - intros H. by destruct (prefix_weak_total _ _ _ H (prefix_app_r a a [x] (reflexivity a))).
Qed.

Lemma is_file_at_within out w w' input fname :
  within out w w' → apart (parse_path input) out →
  slash_free fname = true → nonempty fname = true →
  is_file_at (fs w') (path_join input fname) = is_file_at (fs w) (path_join input fname).
Proof.
  intros (Hsame & _) Hap Hs Hn. unfold is_file_at, stat.
  rewrite parse_path_join, !node_at_snoc by done.
  destruct (apart_child _ _ fname Hap) as [H1 H2]. by rewrite Hsame.
Qed.

(** X23. Directory input. Once the output directory is made, a run on a
    directory that lies neither inside nor above the output directory
    hands exactly the regular files of that directory whose name ends in
    [.paprikarecipe] (in any case) to [process_paprikarecipe_file], each
    once, in the order of the listing, and then prints the closing
    message: subdirectories are not entered, other names are skipped, and
    what earlier files wrote does not change which later entries are
    taken. *)
Theorem directory_run_processes_record_files prog input out rest w w1 :
  makedirs out w = (Ok tt, w1) →
  stat (fs w1) input = Some Dir →
  apart (parse_path input) (parse_path out) →
  Forall (λ fname, slash_free fname = true ∧ nonempty fname = true)
         (listing (fs w1) input) →
  main (prog :: input :: out :: rest) w
  = bind (for_each (record_files_in (fs w1) input)
            (λ fname, process_paprikarecipe_file (path_join input fname) out))
         (λ _, print (MsgDone out)) w1.
Proof.
  intros Hmk Hstat Hap Hnames. rewrite main_long by (simpl; lia).
  change (argv_at (prog :: input :: out :: rest) 1) with input.
  change (argv_at (prog :: input :: out :: rest) 2) with out.
  rewrite (bind_ok _ _ _ _ _ Hmk).
  unfold bind at 1, isdir at 1. rewrite Hstat.
  unfold bind at 1. unfold bind at 1, listdir at 1.
  change (omap _ (map_to_list (fs w1))) with (listing (fs w1) input).
  rewrite (for_each_filter_stable
             (within (parse_path out) w1)
             (λ fname, slash_free fname = true ∧ nonempty fname = true)
             (λ fname, is_file_at (fs w1) (path_join input fname) && selected fname)
             _ (λ fname, process_paprikarecipe_file (path_join input fname) out)
             (listing (fs w1) input)); [done|..|done|apply within_refl].
  - intros x w2 [Hs Hn] Hw Hk. unfold bind, isfile.
    change (match stat (fs w2) (path_join input x) with
            | Some (File _) => true | _ => false end)
      with (is_file_at (fs w2) (path_join input x)).
    rewrite (is_file_at_within _ _ _ _ _ Hw Hap Hs Hn).
    unfold selected in Hk. by rewrite Hk.
  - intros x w2 [Hs Hn] Hw Hk. unfold bind, isfile.
    change (match stat (fs w2) (path_join input x) with
            | Some (File _) => true | _ => false end)
      with (is_file_at (fs w2) (path_join input x)).
    rewrite (is_file_at_within _ _ _ _ _ Hw Hap Hs Hn).
    unfold selected in Hk. by rewrite Hk.
  - intros x w2 r w3 _ Hw Hrun. eapply within_trans; [exact Hw|].
    by eapply confined_process_paprikarecipe_file.
Qed.

Lemma directory_run_processes_record_files_witness :
  record_files_in inbox "in" = ["tea.paprikarecipe"]
  ∧ main ["convert.py"; "in"; "out"] (World inbox [])
    = bind (for_each (record_files_in inbox "in")
              (λ fname, process_paprikarecipe_file (path_join "in" fname) "out"))
           (λ _, print (MsgDone "out")) (World inbox []).
Proof.
  split; [vm_compute; reflexivity|].
  apply (directory_run_processes_record_files
           "convert.py" "in" "out" [] (World inbox []) (World inbox [])).
  - apply (makedirs_run "out" (World inbox []) inbox); [reflexivity|].
    apply dirs_from_makedirs. vm_compute. reflexivity.
  - vm_compute. reflexivity.
  - split; intros [k Hk]; discriminate Hk.
  - cbn [fs]. vm_compute. repeat constructor.
Defined.
